(** * scrappe-tout: content normalisation and bounded retry

    A shallow embedding of the core of the scraper:
    - [src/services/error.js]   error classification, retry eligibility,
      error wrapping, and the retry executor that lives next to them;
    - [src/core/postprocessor.js]  the ordered Markdown clean-up passes;
    - [src/core/navigation-cleaner.js]  the line scanner that drops menus.

    Modelling conventions.
    - A JavaScript string is a [list ascii]; each [ascii] stands for one
      UTF-16 code unit in the range U+0000..U+00FF.  White space, line
      terminators, lower-casing and the regular-expression classes are the
      ECMAScript ones restricted to that range.
    - Regular expressions are terms of [Regex.regex], run by a backtracking
      matcher that follows the ECMAScript matching order (greedy and lazy
      quantifiers, capture groups, anchors, negative look-ahead).
    - A JavaScript object used as a dictionary (an error context) is a
      [gmap string value].
    - JavaScript numbers are [Z] where the code uses them as integers (HTTP
      status, attempt counters) and [Q] for delays; rounding of IEEE doubles
      is not modelled.
    - Promises are run to completion: an asynchronous call either resolves or
      rejects, and the effects of the retry executor (operation calls, the
      observer callback, sleeps) are collected in a trace.  The creation
      timestamp of an error is not modelled. *)

From Stdlib Require Import Ascii String List ZArith QArith Lia Bool Arith.
From Stdlib Require Import DecimalString Qminmax Qpower Lqa.
From stdpp Require Import base option list gmap strings.

Local Close Scope Q_scope.
Local Open Scope nat_scope.
Local Open Scope list_scope.

(* ================================================================= *)
(** ** JavaScript strings *)

Module JsString.

Definition codeUnit (c : ascii) : N := N_of_ascii c.

Definition chr (n : nat) : ascii := ascii_of_nat n.

Definition LF : ascii := chr 10.
Definition CR : ascii := chr 13.

(** String literals of the source are written as Rocq strings. *)
Definition lit (s : string) : list ascii := list_ascii_of_string s.

Definition ch (s : string) : ascii :=
  match s with
  | String c _ => c
  | EmptyString => zero
  end.

(** ECMAScript LineTerminator (U+2028 and U+2029 lie outside the range). *)
Definition isLineTerminator (c : ascii) : bool :=
  Ascii.eqb c LF || Ascii.eqb c CR.

(** ECMAScript WhiteSpace or LineTerminator: what [trim] strips and what
    the class [\s] matches.  TAB, LF, VT, FF, CR, SP and NBSP. *)
Definition isWhiteSpace (c : ascii) : bool :=
  let n := codeUnit c in
  (N.leb 9 n && N.leb n 13) || N.eqb n 32 || N.eqb n 160.

Definition isDigit (c : ascii) : bool :=
  let n := codeUnit c in N.leb 48 n && N.leb n 57.

(** The class [\w]: letters, digits and the underscore. *)
Definition isWordChar (c : ascii) : bool :=
  let n := codeUnit c in
  (N.leb 97 n && N.leb n 122) || (N.leb 65 n && N.leb n 90)
  || isDigit c || N.eqb n 95.

(** [String.prototype.toLowerCase] on one code unit: A-Z, and the
    Latin-1 capitals U+00C0..U+00DE except the multiplication sign. *)
Definition lowerChar (c : ascii) : ascii :=
  let n := codeUnit c in
  if (N.leb 65 n && N.leb n 90)
     || (N.leb 192 n && N.leb n 222 && negb (N.eqb n 215))
  then ascii_of_N (n + 32) else c.

Definition toLowerCase (s : list ascii) : list ascii := map lowerChar s.

Fixpoint dropWhile (p : ascii -> bool) (s : list ascii) : list ascii :=
  match s with
  | [] => []
  | c :: s' => if p c then dropWhile p s' else s
  end.

Definition trimStart (s : list ascii) : list ascii := dropWhile isWhiteSpace s.

Definition trimEnd (s : list ascii) : list ascii :=
  rev (dropWhile isWhiteSpace (rev s)).

Definition trim (s : list ascii) : list ascii := trimEnd (trimStart s).

(** [s.split("\n")]: always at least one piece. *)
Fixpoint splitLines (s : list ascii) : list (list ascii) :=
  match s with
  | [] => [[]]
  | c :: s' =>
      if Ascii.eqb c LF then [] :: splitLines s'
      else match splitLines s' with
           | l :: ls => (c :: l) :: ls
           | [] => [[c]]
           end
  end.

(** [lines.join("\n")]. *)
Fixpoint joinLines (ls : list (list ascii)) : list ascii :=
  match ls with
  | [] => []
  | [l] => l
  | l :: ls' => l ++ LF :: joinLines ls'
  end.

Fixpoint startsWith (s p : list ascii) {struct p} : bool :=
  match p, s with
  | [], _ => true
  | _ :: _, [] => false
  | a :: p', c :: s' => Ascii.eqb c a && startsWith s' p'
  end.

(** [s.includes(p)]: [p] occurs somewhere in [s]. *)
Fixpoint includes (s p : list ascii) : bool :=
  startsWith s p ||
  match s with
  | [] => false
  | _ :: s' => includes s' p
  end.

End JsString.

Import JsString.

(* ================================================================= *)
(** ** Regular expressions *)

Module Regex.

(** The regular-expression literals of the source, as syntax trees.  The
    flags are folded into the tree: [i] into the character tests, [s]
    into the test used for the dot, [m] into the anchors.  [g] is the
    choice between [replaceAll] and a single search. *)
Inductive regex : Type :=
| Eps
| Chr (p : ascii -> bool)
| Seq (r1 r2 : regex)
| Alt (r1 r2 : regex)
| Rep (greedy : bool) (r : regex)
| Grp (i : nat) (r : regex)
| Bol (multiline : bool)
| Eol (multiline : bool)
| NotAhead (r : regex)
| WordB.

(** A position in the subject string: the code units already passed (most
    recent first), those still ahead, and the captures made so far. *)
Record mstate : Type := MState {
  before : list ascii;
  ahead : list ascii;
  caps : nat -> option (list ascii)
}.

Definition noCaps : nat -> option (list ascii) := fun _ => None.

Definition start (s : list ascii) : mstate := MState [] s noCaps.

Definition setCap (i : nat) (v : list ascii) (c : nat -> option (list ascii))
  : nat -> option (list ascii) :=
  fun j => if Nat.eqb j i then Some v else c j.

(** The text consumed between two positions of the same subject. *)
Definition consumed (st st' : mstate) : list ascii :=
  rev (take (length (before st') - length (before st)) (before st')).

Definition atWordChar (s : list ascii) : bool :=
  match s with
  | c :: _ => isWordChar c
  | [] => false
  end.

Definition atLineTerminator (s : list ascii) : bool :=
  match s with
  | c :: _ => isLineTerminator c
  | [] => false
  end.

Definition isNil (s : list ascii) : bool :=
  match s with
  | [] => true
  | _ => false
  end.

(** A quantified sub-expression: up to [n] further iterations of [body],
    each of which has to consume something, tried before ([greedy]) or
    after (lazy) leaving the loop. *)
Fixpoint repeatMatch
    (body : (mstate -> option mstate) -> mstate -> option mstate)
    (greedy : bool) (k : mstate -> option mstate) (n : nat) (st0 : mstate)
  : option mstate :=
  match n with
  | 0 => k st0
  | S n' =>
      let again :=
        body (fun st1 =>
                if length (ahead st1) <? length (ahead st0)
                then repeatMatch body greedy k n' st1 else None) in
      if greedy then
        match again st0 with
        | Some res => Some res
        | None => k st0
        end
      else
        match k st0 with
        | Some res => Some res
        | None => again st0
        end
  end.

(** The backtracking matcher in continuation-passing style: [rmatch r k st]
    tries the alternatives of [r] at [st] in ECMAScript priority order and
    hands each resulting position to [k] until [k] succeeds.  An
    iteration of a quantifier that consumes nothing is rejected, as the
    standard prescribes, so the iteration count is bounded by the number
    of code units ahead. *)
Fixpoint rmatch (r : regex) (k : mstate -> option mstate) (st : mstate)
  : option mstate :=
  match r with
  | Eps => k st
  | Chr p =>
      match ahead st with
      | c :: s' => if p c then k (MState (c :: before st) s' (caps st)) else None
      | [] => None
      end
  | Seq r1 r2 => rmatch r1 (rmatch r2 k) st
  | Alt r1 r2 =>
      match rmatch r1 k st with
      | Some res => Some res
      | None => rmatch r2 k st
      end
  | Rep greedy r1 => repeatMatch (rmatch r1) greedy k (length (ahead st)) st
  | Grp i r1 =>
      rmatch r1
        (fun st1 =>
           k (MState (before st1) (ahead st1)
                (setCap i (consumed st st1) (caps st1)))) st
  | Bol multiline =>
      if isNil (before st) || (multiline && atLineTerminator (before st))
      then k st else None
  | Eol multiline =>
      if isNil (ahead st) || (multiline && atLineTerminator (ahead st))
      then k st else None
  | NotAhead r1 =>
      match rmatch r1 Some st with
      | Some _ => None
      | None => k st
      end
  | WordB =>
      if xorb (atWordChar (before st)) (atWordChar (ahead st))
      then k st else None
  end.

(** One attempt at the current position. *)
Definition matchHere (r : regex) (st : mstate) : option mstate :=
  rmatch r Some (MState (before st) (ahead st) noCaps).

Definition step (st : mstate) : mstate :=
  match ahead st with
  | c :: s' => MState (c :: before st) s' (caps st)
  | [] => st
  end.

(** [RegExp.prototype.exec] without the [g] flag: the left-most position
    at which the matcher succeeds. *)
Fixpoint search (r : regex) (fuel : nat) (st : mstate) : option mstate :=
  match matchHere r st with
  | Some res => Some res
  | None =>
      match fuel, ahead st with
      | S fuel', _ :: _ => search r fuel' (step st)
      | _, _ => None
      end
  end.

(** [re.test(s)], and [s.match(re)] used as a condition, for a regular
    expression without the [g] flag. *)
Definition test (r : regex) (s : list ascii) : bool :=
  match search r (length s) (start s) with
  | Some _ => true
  | None => false
  end.

(** [s.replace(re, f)] for a regular expression with the [g] flag.  The
    subject is walked left to right; at each position the matcher is
    tried, a match is replaced by [f] applied to the matched text and the
    captures, and the walk resumes behind the match (one code unit
    further when the match is empty). *)
Fixpoint replaceFrom (r : regex)
    (f : list ascii -> (nat -> option (list ascii)) -> list ascii)
    (fuel : nat) (st : mstate) : list ascii :=
  match fuel with
  | 0 => ahead st
  | S fuel' =>
      match matchHere r st with
      | Some res =>
          f (consumed st res) (caps res) ++
          (if length (ahead res) <? length (ahead st)
           then replaceFrom r f fuel' res
           else match ahead st with
                | c :: _ => c :: replaceFrom r f fuel' (step st)
                | [] => []
                end)
      | None =>
          match ahead st with
          | c :: _ => c :: replaceFrom r f fuel' (step st)
          | [] => []
          end
      end
  end.

Definition replaceAll (r : regex)
    (f : list ascii -> (nat -> option (list ascii)) -> list ascii)
    (s : list ascii) : list ascii :=
  replaceFrom r f (S (length s)) (start s).

(** A replacement that ignores the match. *)
Definition constant (v : list ascii)
  : list ascii -> (nat -> option (list ascii)) -> list ascii :=
  fun _ _ => v.

(** The capture [$i] of a replacement pattern; an unset group gives the
    empty string. *)
Definition cap (c : nat -> option (list ascii)) (i : nat) : list ascii :=
  match c i with
  | Some v => v
  | None => []
  end.

(** *** Building blocks *)

Definition isChar (c : ascii) : ascii -> bool := fun x => Ascii.eqb x c.

(** Canonicalisation of a code unit under the [i] flag: a-z and the
    Latin-1 small letters go to their capitals. *)
Definition canon (c : ascii) : ascii :=
  let n := codeUnit c in
  if (N.leb 97 n && N.leb n 122)
     || (N.leb 224 n && N.leb n 254 && negb (N.eqb n 247))
  then ascii_of_N (n - 32) else c.

(** A literal character under the [i] flag. *)
Definition isCI (c : ascii) : ascii -> bool :=
  fun x => Ascii.eqb (canon x) (canon c).

Definition isNot (c : ascii) : ascii -> bool := fun x => negb (Ascii.eqb x c).

(** The dot without and with the [s] flag. *)
Definition dot : ascii -> bool := fun x => negb (isLineTerminator x).
Definition dotAll : ascii -> bool := fun _ => true.

Definition star (r : regex) : regex := Rep true r.
Definition lazyStar (r : regex) : regex := Rep false r.
Definition plus1 (r : regex) : regex := Seq r (Rep true r).
Definition lazyPlus (r : regex) : regex := Seq r (Rep false r).
Definition opt (r : regex) : regex := Alt r Eps.

(** A run of literal characters, case-sensitive or not. *)
Fixpoint text (ci : bool) (s : list ascii) : regex :=
  match s with
  | [] => Eps
  | [c] => Chr (if ci then isCI c else isChar c)
  | c :: s' => Seq (Chr (if ci then isCI c else isChar c)) (text ci s')
  end.

Fixpoint seqs (rs : list regex) : regex :=
  match rs with
  | [] => Eps
  | [r] => r
  | r :: rs' => Seq r (seqs rs')
  end.

Fixpoint alts (rs : list regex) : regex :=
  match rs with
  | [] => NotAhead Eps
  | [r] => r
  | r :: rs' => Alt r (alts rs')
  end.

End Regex.

Import Regex.

(* ================================================================= *)
(** ** Error service ([src/services/error.js]) *)

Module ErrorService.

(** [ErrorType] of [src/utils/constants.js]. *)
Inductive ErrorType : Type :=
| NETWORK | TIMEOUT | PARSE | VALIDATION | RATE_LIMIT | FILE_EXISTS.

Definition errorTypeCode (t : ErrorType) : string :=
  match t with
  | NETWORK => "NETWORK_ERROR"
  | TIMEOUT => "TIMEOUT_ERROR"
  | PARSE => "PARSE_ERROR"
  | VALIDATION => "VALIDATION_ERROR"
  | RATE_LIMIT => "RATE_LIMIT_ERROR"
  | FILE_EXISTS => "FILE_EXISTS_ERROR"
  end.

(** Values stored in a context object. *)
Inductive value : Type :=
| VUndefined
| VNull
| VBool (b : bool)
| VNum (n : Z)
| VStr (s : string).

Definition isEmptyString (s : string) : bool :=
  match s with
  | EmptyString => true
  | String _ _ => false
  end.

(** ECMAScript ToBoolean. *)
Definition truthy (v : value) : bool :=
  match v with
  | VUndefined | VNull => false
  | VBool b => b
  | VNum n => negb (Z.eqb n 0)
  | VStr s => negb (isEmptyString s)
  end.

(** An error value as the service reads it: either an instance of
    [ScrapingError], built by [new ScrapingError(message, code, context,
    originalError)] with a [code] taken from [ErrorType], or any other
    error object, of which the service reads [name], [message], and the
    optional properties [code] (a string), [status] (an integer) and
    [context] (an object). *)
#[local] Unset Elimination Schemes.
Inductive JsError : Type :=
| ScrapingError (message : string) (code : ErrorType)
    (context : gmap string value) (originalError : option JsError)
| OtherError (name message : string) (code : option string)
    (status : option Z) (context : option (gmap string value)).
#[local] Set Elimination Schemes.

(** [error instanceof ScrapingError]. *)
Definition isScrapingError (error : JsError) : bool :=
  match error with
  | ScrapingError _ _ _ _ => true
  | OtherError _ _ _ _ _ => false
  end.

(** The constructor of [ScrapingError] sets [this.name]. *)
Definition name (error : JsError) : string :=
  match error with
  | ScrapingError _ _ _ _ => "ScrapingError"
  | OtherError n _ _ _ _ => n
  end.

Definition message (error : JsError) : string :=
  match error with
  | ScrapingError m _ _ _ => m
  | OtherError _ m _ _ _ => m
  end.

Definition code (error : JsError) : option string :=
  match error with
  | ScrapingError _ c _ _ => Some (errorTypeCode c)
  | OtherError _ _ c _ _ => c
  end.

(** A [ScrapingError] has no [status] property. *)
Definition status (error : JsError) : option Z :=
  match error with
  | ScrapingError _ _ _ _ => None
  | OtherError _ _ _ s _ => s
  end.

Definition context (error : JsError) : option (gmap string value) :=
  match error with
  | ScrapingError _ _ ctx _ => Some ctx
  | OtherError _ _ _ _ ctx => ctx
  end.

Definition originalError (error : JsError) : option JsError :=
  match error with
  | ScrapingError _ _ _ o => o
  | OtherError _ _ _ _ _ => None
  end.

(** An error object without [context]. *)
Definition plainError (name message : string) (code : option string)
    (status : option Z) : JsError :=
  OtherError name message code status None.

(** [if (error.code)] and [if (error.status)]: present and truthy. *)
Definition codeTruthy (error : JsError) : bool :=
  match code error with
  | Some c => negb (isEmptyString c)
  | None => false
  end.

Definition statusTruthy (error : JsError) : bool :=
  match status error with
  | Some n => negb (Z.eqb n 0)
  | None => false
  end.

(** [error.context?.key]. *)
Definition contextGet (error : JsError) (key : string) : value :=
  match context error with
  | Some ctx => default VUndefined (ctx !! key)
  | None => VUndefined
  end.

Definition networkCodes : list string :=
  ["ETIMEDOUT"; "ENOTFOUND"; "ECONNRESET"; "ECONNREFUSED"].

Definition retryableStatus : list Z := [408; 429; 500; 502; 503; 504]%Z.

Definition codeIn (codes : list string) (error : JsError) : bool :=
  match code error with
  | Some c => existsb (String.eqb c) codes
  | None => false
  end.

Definition statusIn (codes : list Z) (error : JsError) : bool :=
  match status error with
  | Some n => existsb (Z.eqb n) codes
  | None => false
  end.

Definition statusIs (n : Z) (error : JsError) : bool :=
  match status error with
  | Some m => Z.eqb m n
  | None => false
  end.

Definition statusAtLeast (n : Z) (error : JsError) : bool :=
  match status error with
  | Some m => Z.leb n m
  | None => false
  end.

Definition classifyError (error : JsError) : ErrorType :=
  if String.eqb (name error) "TimeoutError" then TIMEOUT
  else if codeTruthy error && codeIn networkCodes error then NETWORK
  else if statusTruthy error && statusIs 429 error then RATE_LIMIT
  else if statusTruthy error && statusAtLeast 500 error then NETWORK
  else
    let msg := toLowerCase (lit (message error)) in
    if negb (isEmptyString (message error))
       && (includes msg (lit "rate limit")
           || includes msg (lit "too many requests"))
    then RATE_LIMIT
    else PARSE.

Definition isRetryableError (error : JsError) : bool :=
  if truthy (contextGet error "nonRetryable") then false
  else if codeTruthy error && codeIn networkCodes error then true
  else if statusTruthy error then statusIn retryableStatus error
  else if String.eqb (name error) "TimeoutError" then true
  else false.

Definition wrapError (error : JsError) (code : ErrorType)
    (context : gmap string value) : JsError :=
  if isScrapingError error then error
  else ScrapingError (message error) code context (Some error).

End ErrorService.

(* ================================================================= *)
(** ** Retry service (second part of [src/services/error.js]) *)

Module Retry.
Import ErrorService.

(** The argument of the [onRetry] callback. *)
Record RetryInfo : Type := MkRetryInfo {
  info_attempt : nat;
  info_nextAttempt : nat;
  info_maxAttempts : nat;
  info_delay : Q;
  info_error : JsError
}.

(** The observable effects of one run, in order. *)
Inductive event : Type :=
| Called (attempt : nat)
| Observed (info : RetryInfo)
| Slept (ms : Q).

(** The retry options after destructuring; [onRetry] records whether a
    callback was supplied (its calls appear in the trace). *)
Record options : Type := MkOptions {
  maxAttempts : nat;
  baseDelay : Q;
  maxDelay : Q;
  onRetry : bool
}.

Definition defaultOptions : options := MkOptions 3 1000 30000 false.

(** How the returned promise settles.  [TypeErrorThrown] is the engine's
    own [TypeError], raised when [wrapError] reads [.message] of
    [undefined]. *)
Inductive outcome (A : Type) : Type :=
| Resolved (result : A)
| Rejected (error : JsError)
| TypeErrorThrown.
Arguments Resolved {A} result.
Arguments Rejected {A} error.
Arguments TypeErrorThrown {A}.

(** [1 + (Math.random() * 0.2 - 0.1)] for a draw [random] of
    [Math.random()]. *)
Definition jitterOf (random : Q) : Q :=
  (1 + (random * (2 # 10) - (1 # 10)))%Q.

Definition calculateDelay (attempt : nat) (baseDelay maxDelay : Q)
    (random : Q) : Q :=
  let exponentialDelay := (baseDelay * 2 ^ (Z.of_nat attempt - 1))%Q in
  let jitter := jitterOf random in
  Qmin (exponentialDelay * jitter)%Q maxDelay.

Definition natToString (n : nat) : string :=
  NilEmpty.string_of_uint (Nat.to_uint n).

Definition nonRetryableContext (attempt : nat) : gmap string value :=
  <["nonRetryable" := VBool true]>
    (<["attemptsMade" := VNum (Z.of_nat attempt)]> ∅).

Definition exhaustedContext (maxAttempts : nat) : gmap string value :=
  <["totalAttempts" := VNum (Z.of_nat maxAttempts)]>
    (<["message" :=
         VStr ("Operation failed after " +:+ natToString maxAttempts
               +:+ " attempts")]> ∅).

Section Execute.
Context {A : Type}.
(** The operation, as a function of the attempt number it is passed. *)
Variable operation : nat -> A + JsError.
Variable opts : options.
(** [random n] is the draw of [Math.random()] made after attempt [n]
    failed. *)
Variable random : nat -> Q.

(** The code after the loop. *)
Definition afterLoop (lastError : option JsError) : outcome A :=
  match lastError with
  | Some e => Rejected (wrapError e NETWORK (exhaustedContext (maxAttempts opts)))
  | None => TypeErrorThrown
  end.

(** The [for] loop; [left] is the number of values of [attempt] that
    still satisfy [attempt <= maxAttempts]. *)
Fixpoint attemptLoop (left attempt : nat) (lastError : option JsError)
    (trace : list event) : outcome A * list event :=
  match left with
  | 0 => (afterLoop lastError, trace)
  | S left' =>
      let trace1 := trace ++ [Called attempt] in
      match operation attempt with
      | inl result => (Resolved result, trace1)
      | inr error =>
          if maxAttempts opts <=? attempt then
            (afterLoop (Some error), trace1)
          else if negb (isRetryableError error) then
            (Rejected (wrapError error NETWORK (nonRetryableContext attempt)),
             trace1)
          else
            let delay :=
              calculateDelay attempt (baseDelay opts) (maxDelay opts)
                (random attempt) in
            let trace2 :=
              if onRetry opts
              then trace1 ++ [Observed (MkRetryInfo attempt (attempt + 1)
                                          (maxAttempts opts) delay error)]
              else trace1 in
            attemptLoop left' (S attempt) (Some error)
              (trace2 ++ [Slept delay])
      end
  end.

Definition executeWithRetry : outcome A * list event :=
  attemptLoop (maxAttempts opts) 1 None [].

End Execute.

(** A source of randomness that always draws 0.5, for worked examples. *)
Definition midDraw : nat -> Q := fun _ => (1 # 2)%Q.

(** The attempt numbers passed to the operation, in call order. *)
Definition calls (trace : list event) : list nat :=
  omap (fun ev => match ev with Called a => Some a | _ => None end) trace.

Definition sleeps (trace : list event) : list Q :=
  omap (fun ev => match ev with Slept d => Some d | _ => None end) trace.

End Retry.

(* ================================================================= *)
(** ** Navigation cleaner ([src/core/navigation-cleaner.js]) *)

Module NavigationCleaner.

Definition NAVIGATION_KEYWORDS : list (list ascii) :=
  map lit
    [ "skip to main content"; "ok, got it"; "learn more"; "menuclose";
      "menu close"; "uses cookies from google"; "get started";
      "on this page"; "copy link"; "view source"; "report issue";
      "more_vert"; "[search]"; "is live!" ]%string.

(** [/^word$/im]. *)
Definition headerPattern (word : string) : regex :=
  seqs [Bol true; text true (lit word); Eol true].

Definition MENU_SECTION_HEADERS : list regex :=
  map headerPattern ["routine"; "apps"; "list"; "more_vert"]%string.

Definition anyChar : regex := Chr dot.
Definition space : regex := Chr isWhiteSpace.
Definition digit : regex := Chr isDigit.
Definition c (s : string) : regex := Chr (isChar (ch s)).
Definition t (s : string) : regex := text false (lit s).

(** [/^-\s*\[!\[.*?logo.*?\]\(.*?\)/] *)
Definition reLogoItem : regex :=
  seqs [Bol false; c "-"; star space; t "[!["; lazyStar anyChar; t "logo";
        lazyStar anyChar; t "]("; lazyStar anyChar; c ")"].

(** [/^\[#\]\(#.+\)$/] *)
Definition reEmptyAnchor : regex :=
  seqs [Bol false; t "[#](#"; plus1 anyChar; c ")"; Eol false].

(** [/^\[vertical_align_top.*?\]\(#.+\)$/] *)
Definition reIconLink : regex :=
  seqs [Bol false; t "[vertical_align_top"; lazyStar anyChar; t "](#";
        plus1 anyChar; c ")"; Eol false].

(** [/^\d+\.\s+\[.*?\]\(.*\)(\s+chevron_right)?$/] *)
Definition reNumberedItem : regex :=
  seqs [Bol false; plus1 digit; c "."; plus1 space; c "["; lazyStar anyChar;
        t "]("; star anyChar; c ")";
        opt (Grp 1 (seqs [plus1 space; t "chevron_right"])); Eol false].

(** [/\n{3,}/g] *)
Definition reBlankRun : regex :=
  seqs [Chr (isChar LF); Chr (isChar LF); Chr (isChar LF);
        star (Chr (isChar LF))].

Definition dash : list ascii := lit "-".

Definition hasNavigationKeyword (trimmedLine : list ascii) : bool :=
  existsb (fun keyword => includes (toLowerCase trimmedLine) keyword)
    NAVIGATION_KEYWORDS.

Definition isMenuSectionHeader (trimmedLine : list ascii) : bool :=
  existsb (fun pattern => test pattern trimmedLine) MENU_SECTION_HEADERS.

(** The [isMenuList] condition on the lower-cased look-ahead window. *)
Definition isMenuList (listContent : list ascii) : bool :=
  (includes listContent (lit "logo")
   && includes listContent (lit "navigate to"))
  || (includes listContent (lit "install")
      && includes listContent (lit "files"))
  || includes listContent (lit "user interface")
  || includes listContent (lit "component catalog")
  || (includes listContent (lit "palette")
      && includes listContent (lit "view_module"))
  || includes listContent (lit "#introduction")
  || includes listContent (lit "#create-a-new").

(** [lines.slice(i, Math.min(i + 20)).join("\n").toLowerCase()], where
    [lines] here is the part of the array from index [i] on.
    [Math.min] of one argument is that argument. *)
Definition listContentAt (lines : list (list ascii)) : list ascii :=
  toLowerCase (joinLines (take 20 lines)).

(** The condition under which a line starts a list-shaped menu. *)
Definition startsMenuList (trimmedLine : list ascii)
    (lines : list (list ascii)) : bool :=
  startsWith trimmedLine dash &&
  match lines with
  | _ :: nextLine :: _ =>
      startsWith (trim nextLine) dash && isMenuList (listContentAt lines)
  | _ => false
  end.

(** [i + 1 < lines.length] and the next line does not start with a dash. *)
Definition nextLacksDash (rest : list (list ascii)) : bool :=
  match rest with
  | nextLine :: _ => negb (startsWith (trim nextLine) dash)
  | [] => false
  end.

Definition isLinkChrome (trimmedLine : list ascii) : bool :=
  test reLogoItem trimmedLine
  || test reEmptyAnchor trimmedLine
  || test reIconLink trimmedLine
  || test reNumberedItem trimmedLine.

(** The body of the [for] loop, from line [i] on; [skipMode] is
    0 = normal, 1 = in menu list, 2 = in menu section. *)
Fixpoint scan (lines : list (list ascii)) (skipMode : nat)
    (cleaned : list (list ascii)) : list (list ascii) :=
  match lines with
  | [] => cleaned
  | line :: rest =>
      let trimmedLine := trim line in
      if hasNavigationKeyword trimmedLine then scan rest skipMode cleaned
      else if isMenuSectionHeader trimmedLine then scan rest 2 cleaned
      else if startsMenuList trimmedLine lines then scan rest 1 cleaned
      else if (skipMode =? 1)
              && negb (negb (startsWith trimmedLine dash)
                       && (0 <? length trimmedLine))
      then scan rest skipMode cleaned
      else
        let skipMode1 := if skipMode =? 1 then 0 else skipMode in
        if skipMode1 =? 2 then
          if (length trimmedLine =? 0) && nextLacksDash rest
          then scan rest 0 cleaned
          else scan rest skipMode1 cleaned
        else if isLinkChrome trimmedLine then scan rest skipMode1 cleaned
        else scan rest skipMode1 (cleaned ++ [line])
  end.

Definition collapseBlankRuns (s : list ascii) : list ascii :=
  replaceAll reBlankRun (constant [LF; LF]) s.

Definition removeNavigationMenus (markdown : list ascii) : list ascii :=
  let lines := splitLines markdown in
  let cleaned := scan lines 0 [] in
  let result := collapseBlankRuns (joinLines cleaned) in
  trim result.

End NavigationCleaner.

(* ================================================================= *)
(** ** Post-processor ([src/core/postprocessor.js]) *)

Module Postprocessor.
Import NavigationCleaner.

Definition ci (s : string) : regex := text true (lit s).
Definition anyCharS : regex := Chr dotAll.
Definition notGt : regex := Chr (isNot (ch ">")).

(** [/^[-\s]*-\s+\[.+?\]\(#.+\)/] *)
Definition reTocItem : regex :=
  seqs [Bol false;
        star (Chr (fun x => isChar (ch "-") x || isWhiteSpace x));
        c "-"; plus1 space; c "["; lazyPlus anyChar; t "](#";
        plus1 anyChar; c ")"].

Definition isTocItemLine (line : list ascii) : bool :=
  test reTocItem (trim line).

(** The loop of [removeDuplicateTOC] over the remaining lines, with its
    four variables. *)
Fixpoint tocLoop (lines : list (list ascii)) (inToc : bool)
    (tocLines : list (list ascii)) (seenToc : bool)
    (result : list (list ascii)) : list (list ascii) :=
  match lines with
  | [] => result
  | line :: rest =>
      if isTocItemLine line then
        if negb inToc then tocLoop rest true [line] seenToc result
        else tocLoop rest inToc (tocLines ++ [line]) seenToc result
      else if inToc then
        if negb seenToc && (length tocLines <? 30) && (2 <? length tocLines)
        then tocLoop rest false [] true ((result ++ tocLines) ++ [line])
        else tocLoop rest false [] seenToc (result ++ [line])
      else tocLoop rest inToc tocLines seenToc (result ++ [line])
  end.

(** Lines that all are, respectively none of which is, a TOC item. *)
Abbreviation TocLines := (Forall (fun l => isTocItemLine l = true)).
Abbreviation PlainLines := (Forall (fun l => isTocItemLine l = false)).

Definition removeDuplicateTOC (markdown : list ascii) : list ascii :=
  joinLines (tocLoop (splitLines markdown) false [] false []).

(** [/^\[!\[.*?logo.*?\]\(.*?\).*?\]\(\/\)/] *)
Definition reHeaderLogo : regex :=
  seqs [Bol false; t "[!["; lazyStar anyChar; t "logo"; lazyStar anyChar;
        t "]("; lazyStar anyChar; c ")"; lazyStar anyChar; t "](/)"].

(** [/^\[!\[.*?\]\(\/assets\/images\/branding\/.*?\)/] *)
Definition reBrandingImage : regex :=
  seqs [Bol false; t "[!["; lazyStar anyChar;
        t "](/assets/images/branding/"; lazyStar anyChar; c ")"].

Definition isHeaderNavLine (line : list ascii) : bool :=
  test reHeaderLogo (trim line) || test reBrandingImage (trim line).

Definition removeHeaderNav (markdown : list ascii) : list ascii :=
  joinLines (List.filter (fun line => negb (isHeaderNavLine line))
               (splitLines markdown)).

(** [/<dt>(.*?)<\/dt>\s*<dd>(.*?)<\/dd>/gis] *)
Definition reTermAndDesc : regex :=
  seqs [ci "<dt>"; Grp 1 (lazyStar anyCharS); ci "</dt>"; star space;
        ci "<dd>"; Grp 2 (lazyStar anyCharS); ci "</dd>"].

(** [/<dt>(.*?)<\/dt>/gi] *)
Definition reTerm : regex :=
  seqs [ci "<dt>"; Grp 1 (lazyStar anyChar); ci "</dt>"].

(** [/<dd>(.*?)<\/dd>/gi] *)
Definition reDesc : regex :=
  seqs [ci "<dd>"; Grp 1 (lazyStar anyChar); ci "</dd>"].

(** [/<\/?dl>/gi] *)
Definition reDlTag : regex :=
  seqs [ci "<"; opt (c "/"); ci "dl>"].

(** [/\n:\s*\n/g] *)
Definition reEmptyDesc : regex :=
  seqs [Chr (isChar LF); c ":"; star space; Chr (isChar LF)].

Definition convertDefinitionLists (markdown : list ascii) : list ascii :=
  let cleaned := markdown in
  let cleaned :=
    replaceAll reTermAndDesc
      (fun _ caps =>
         lit "**" ++ cap caps 1 ++ lit "**" ++ [LF] ++ lit ": "
         ++ trim (cap caps 2) ++ [LF])
      cleaned in
  let cleaned :=
    replaceAll reTerm
      (fun _ caps => lit "**" ++ cap caps 1 ++ lit "**" ++ [LF]) cleaned in
  let cleaned :=
    replaceAll reDesc
      (fun _ caps => lit ": " ++ cap caps 1 ++ [LF]) cleaned in
  let cleaned := replaceAll reDlTag (constant []) cleaned in
  replaceAll reEmptyDesc (constant [LF]) cleaned.

Definition tagsToRemove : list string :=
  ["script"; "style"; "nav"; "footer"; "header"; "aside"; "navlink"]%string.

(** [new RegExp(`<${tag}[^>]*>.*?<\/${tag}>`, "gis")] *)
Definition reElement (tag : string) : regex :=
  seqs [ci "<"; ci tag; star notGt; c ">"; lazyStar anyCharS; ci "</";
        ci tag; c ">"].

(** The five patterns of [selfClosingTags], compiled with ["gis"]. *)
Definition selfClosingTags : list regex :=
  [ seqs [ci "<img"; star notGt; c ">"];
    seqs [ci "<br"; star space; opt (c "/"); c ">"];
    seqs [ci "<hr"; star space; opt (c "/"); c ">"];
    seqs [ci "<input"; star notGt; c ">"];
    seqs [ci "<button"; star notGt; c ">"; lazyStar anyCharS;
          ci "</button>"] ].

Definition allowedTags : list regex :=
  [ ci "code"; ci "pre"; ci "kbd"; ci "samp"; ci "strong"; ci "em"; ci "a";
    ci "p";
    seqs [ci "h"; Chr (fun x => N.leb 49 (codeUnit x) && N.leb (codeUnit x) 54)];
    ci "ul"; ci "ol"; ci "li"; ci "blockquote"; ci "div"; ci "span" ].

(** [/<(?!\/?(?:code|pre|...|span)\b)[^>]+>/gi] *)
Definition reOtherTag : regex :=
  seqs [c "<"; NotAhead (seqs [opt (c "/"); alts allowedTags; WordB]);
        plus1 notGt; c ">"].

Definition stripRemainingHtml (markdown : list ascii) : list ascii :=
  let cleaned := markdown in
  let cleaned :=
    fold_left (fun acc tag => replaceAll (reElement tag) (constant []) acc)
      tagsToRemove cleaned in
  let cleaned :=
    fold_left (fun acc re => replaceAll re (constant []) acc)
      selfClosingTags cleaned in
  replaceAll reOtherTag (constant []) cleaned.

Definition cleanWhitespace (markdown : list ascii) : list ascii :=
  let cleaned := collapseBlankRuns markdown in
  joinLines (map trimEnd (splitLines cleaned)).

Record options : Type := MkOptions {
  preserveBreadcrumbs : bool;
  convertHtmlTags : bool
}.

Definition defaultOptions : options := MkOptions false true.

Definition postProcessMarkdown (markdown : list ascii) (opts : options)
  : list ascii :=
  let processed := markdown in
  let processed := removeHeaderNav processed in
  let processed := removeDuplicateTOC processed in
  let processed := convertDefinitionLists processed in
  let processed :=
    if convertHtmlTags opts then stripRemainingHtml processed
    else processed in
  let processed := removeNavigationMenus processed in
  cleanWhitespace processed.

End Postprocessor.

(* ================================================================= *)
(** ** The claims that the code does not satisfy as they are worded *)

Module AsStated.
Import ErrorService Retry NavigationCleaner Postprocessor.

Definition errorTypeEqb (a b : ErrorType) : bool :=
  String.eqb (errorTypeCode a) (errorTypeCode b).

(** C1 as worded: a non-retryable failure on any attempt up to and
    including the last one ends the run with a ScrapingError carrying
    [nonRetryable = true] and [attemptsMade]. *)
Definition C1_as_stated : Prop :=
  forall (operation : nat -> unit + JsError) (opts : Retry.options)
         (random : nat -> Q) (n : nat) (err : JsError),
    1 <= n <= maxAttempts opts ->
    (forall i, 1 <= i < n ->
       exists e, operation i = inr e /\ isRetryableError e = true) ->
    operation n = inr err ->
    isRetryableError err = false ->
    exists w,
      fst (executeWithRetry operation opts random) = Rejected w
      /\ calls (snd (executeWithRetry operation opts random)) = seq 1 n
      /\ contextGet w "nonRetryable" = VBool true
      /\ contextGet w "attemptsMade" = VNum (Z.of_nat n).

(** C4 as worded. *)
Definition C4_as_stated : Prop :=
  forall error : JsError,
    isRetryableError error =
    negb (truthy (contextGet error "nonRetryable"))
    && (codeIn networkCodes error
        || statusIn retryableStatus error
        || errorTypeEqb (classifyError error) TIMEOUT).

(** C6 as worded: a block of exactly 1 or exactly 35 items, standing
    between non-TOC lines in a document with no other TOC-shaped line,
    passes through the pass, which then returns the document unchanged. *)
Definition C6_as_stated : Prop :=
  forall (markdown : list ascii) (pre run post : list (list ascii))
         (y : list ascii),
    splitLines markdown = pre ++ run ++ y :: post ->
    Forall (fun l => isTocItemLine l = false) pre ->
    Forall (fun l => isTocItemLine l = true) run ->
    isTocItemLine y = false ->
    Forall (fun l => isTocItemLine l = false) post ->
    length run = 1 \/ length run = 35 ->
    removeDuplicateTOC markdown = markdown.

(** The premises of C7: four contiguous lines that start with a dash and
    whose joined, lower-cased text contains both phrases, then a non-empty
    line that does not start with a dash and that no drop rule matches. *)
Definition menuRunThenPlain (l1 l2 l3 l4 l5 : list ascii) : Prop :=
  Forall (fun l => startsWith (trim l) dash = true) [l1; l2; l3; l4]
  /\ includes (toLowerCase (joinLines [l1; l2; l3; l4])) (lit "logo") = true
  /\ includes (toLowerCase (joinLines [l1; l2; l3; l4])) (lit "navigate to") = true
  /\ 0 < length (trim l5)
  /\ startsWith (trim l5) dash = false
  /\ hasNavigationKeyword (trim l5) = false
  /\ isMenuSectionHeader (trim l5) = false
  /\ isLinkChrome (trim l5) = false.

(** C7 as worded: the four dash lines are dropped and the plain line kept,
    wherever the run stands. *)
Definition C7_as_stated : Prop :=
  forall (markdown : list ascii) (pre post : list (list ascii))
         (l1 l2 l3 l4 l5 : list ascii),
    splitLines markdown = pre ++ [l1; l2; l3; l4; l5] ++ post ->
    menuRunThenPlain l1 l2 l3 l4 l5 ->
    exists kept kept',
      sublist kept pre /\ sublist kept' post
      /\ scan (splitLines markdown) 0 [] = kept ++ l5 :: kept'.

(** "Free of chrome" in the widest sense: no line contains a chrome phrase,
    reads as a section header, is a navigation link or a header logo, and
    the text as a whole satisfies none of the menu-shape heuristics. *)
Definition chromeFree (markdown : list ascii) : Prop :=
  Forall (fun l => hasNavigationKeyword (trim l) = false
                   /\ isMenuSectionHeader (trim l) = false
                   /\ isLinkChrome (trim l) = false
                   /\ isHeaderNavLine l = false)
    (splitLines markdown)
  /\ isMenuList (toLowerCase markdown) = false.

(** C8 as worded. *)
Definition C8_as_stated : Prop :=
  forall markdown : list ascii,
    chromeFree markdown ->
    postProcessMarkdown
      (postProcessMarkdown markdown Postprocessor.defaultOptions)
      Postprocessor.defaultOptions
    = postProcessMarkdown markdown Postprocessor.defaultOptions.

End AsStated.

(* ================================================================= *)
(** ** Plain text: input on which only the white-space rules act *)

Module PlainText.
Import NavigationCleaner Postprocessor.

(** A line that no line rule of the pipeline matches: no header logo, no
    TOC item, no chrome phrase, no section header, no navigation link, no
    leading colon. *)
Definition inertLine (l : list ascii) : bool :=
  negb (isHeaderNavLine l)
  && negb (isTocItemLine l)
  && negb (hasNavigationKeyword (trim l))
  && negb (isMenuSectionHeader (trim l))
  && negb (isLinkChrome (trim l))
  && negb (startsWith (trim l) (lit ":")).

(** Some line contains the word, case aside. *)
Definition hasWord (k : list ascii) (ls : list (list ascii)) : bool :=
  existsb (fun l => includes (toLowerCase l) k) ls.

(** The menu-shape test of [isMenuList], asked of a set of lines. *)
Definition menuShaped (ls : list (list ascii)) : bool :=
  (hasWord (lit "logo") ls && hasWord (lit "navigate to") ls)
  || (hasWord (lit "install") ls && hasWord (lit "files") ls)
  || hasWord (lit "user interface") ls
  || hasWord (lit "component catalog") ls
  || (hasWord (lit "palette") ls && hasWord (lit "view_module") ls)
  || hasWord (lit "#introduction") ls
  || hasWord (lit "#create-a-new") ls.

(** No residual markup: the text has no [<]. *)
Definition noMarkup (s : list ascii) : Prop :=
  Forall (fun x => x <> ch "<") s.

(** A line that is empty or has a visible character: not a line made of
    white space only. *)
Definition solidLine (l : list ascii) : Prop :=
  l = [] \/ trim l <> [].

(** Plain text: no line rule matches a line, the text as a whole has no
    menu shape, there is no markup, and no line is made of white space
    only. *)
Definition plainText (markdown : list ascii) : Prop :=
  Forall (fun l => inertLine l = true) (splitLines markdown)
  /\ isMenuList (toLowerCase markdown) = false
  /\ noMarkup markdown
  /\ Forall solidLine (splitLines markdown).

(** A line holds no line feed. *)
Definition NoLF (l : list ascii) : Prop := Forall (fun c => c <> LF) l.

(** Three line feeds. *)
Definition LF3 : list ascii := [LF; LF; LF].

(** [replace(/\n{3,}/g, "\n\n")] written as a direct recursion, with the
    same fuel as the generic replacement. *)
Fixpoint collapseRuns (fuel : nat) (s : list ascii) : list ascii :=
  match fuel with
  | 0 => s
  | S fuel' =>
      match s with
      | [] => []
      | c1 :: s1 =>
          if startsWith s LF3
          then LF :: LF :: collapseRuns fuel' (dropWhile (isChar LF) s1)
          else c1 :: collapseRuns fuel' s1
      end
  end.

(** The number of line feeds a text starts with. *)
Fixpoint lead (s : list ascii) : nat :=
  match s with
  | c1 :: s1 => if Ascii.eqb c1 LF then S (lead s1) else 0
  | [] => 0
  end.

(** No three line feeds in a row. *)
Fixpoint noTriple (s : list ascii) : bool :=
  match s with
  | [] => true
  | c1 :: s1 =>
      match s1 with
      | c2 :: c3 :: _ =>
          negb (Ascii.eqb c1 LF && Ascii.eqb c2 LF && Ascii.eqb c3 LF)
          && noTriple s1
      | _ => true
      end
  end.

(** A line feed directly followed by a colon. *)
Fixpoint colonAfterLF (s : list ascii) : bool :=
  match s with
  | [] => false
  | c1 :: s1 =>
      match s1 with
      | c2 :: _ => (Ascii.eqb c1 LF && Ascii.eqb c2 (ch ":")) || colonAfterLF s1
      | [] => false
      end
  end.

(** The first, respectively the last, code unit is no white space. *)
Definition headSolid (s : list ascii) : Prop :=
  match s with
  | x :: _ => isWhiteSpace x = false
  | [] => True
  end.

Definition lastSolid (s : list ascii) : Prop := headSolid (rev s).

(** Append a code unit to the last line. *)
Fixpoint snocToLast (ls : list (list ascii)) (x : ascii) : list (list ascii) :=
  match ls with
  | [] => [[x]]
  | [l] => [l ++ [x]]
  | l :: ls' => l :: snocToLast ls' x
  end.

(** The second step of [cleanWhitespace]:
    [split("\n").map((line) => line.trimEnd()).join("\n")]. *)
Definition trimEndLines (s : list ascii) : list ascii :=
  joinLines (map trimEnd (splitLines s)).

(** What is left for the pipeline to do on plain text: collapse the blank
    runs, trim the text, strip the trailing white space of every line. *)
Definition tidy (s : list ascii) : list ascii :=
  trimEndLines (trim (collapseBlankRuns s)).

(** The matcher fails at once unless the next code unit passes [p]. *)
Definition needsHead (p : ascii -> bool) (r : regex) : Prop :=
  forall k st,
    match ahead st with
    | x :: _ => p x = false
    | [] => True
    end ->
    rmatch r k st = None.

(** Advance over the longest run of code units passing [p]. *)
Fixpoint skipWhile (p : ascii -> bool) (bef ahd : list ascii)
  : list ascii * list ascii :=
  match ahd with
  | x :: ahd' => if p x then skipWhile p (x :: bef) ahd' else (bef, ahd)
  | [] => (bef, ahd)
  end.

End PlainText.

(* ================================================================= *)
(** * Properties *)

Import ErrorService Retry NavigationCleaner Postprocessor AsStated PlainText.

(* ----------------------------------------------------------------- *)
(** ** Retry eligibility *)

Lemma classifyError_timeout error :
  errorTypeEqb (classifyError error) TIMEOUT
  = String.eqb (name error) "TimeoutError".
Proof.
  unfold classifyError.
  destruct (String.eqb (name error) "TimeoutError"); [reflexivity|].
  repeat match goal with
         | |- context [if ?b then _ else _] => destruct b
         end; reflexivity.
Qed.

Lemma codeIn_network_truthy error :
  codeIn networkCodes error = true -> codeTruthy error = true.
Proof.
  unfold codeIn, codeTruthy. destruct (code error) as [s|]; [|discriminate].
  destruct s; [discriminate|reflexivity].
Qed.

Lemma statusIn_retryable_truthy error :
  statusIn retryableStatus error = true -> statusTruthy error = true.
Proof.
  unfold statusIn, statusTruthy. destruct (status error) as [n|]; [|discriminate].
  destruct (Z.eqb_spec n 0) as [->|]; [discriminate|reflexivity].
Qed.

(** C4, amended.  [isRetryableError] is false when [context.nonRetryable]
    is set; otherwise it is true exactly when the error carries a transient
    network code, or a status of the retryable set, or carries no status and
    is classified TIMEOUT.  A status present on the error decides: 429 is
    retryable, 404 is not, and a timeout error with status 404 is not
    retryable either. *)
Theorem C4_isRetryableError_decision :
  (forall error : JsError,
     isRetryableError error =
     negb (truthy (contextGet error "nonRetryable"))
     && (codeIn networkCodes error
         || statusIn retryableStatus error
         || (negb (statusTruthy error)
             && errorTypeEqb (classifyError error) TIMEOUT)))
  /\ (forall nm msg, isRetryableError (plainError nm msg None (Some 429%Z)) = true)
  /\ (forall nm msg, isRetryableError (plainError nm msg None (Some 404%Z)) = false).
Proof.
  split; [|split; reflexivity].
  intros error. rewrite classifyError_timeout. unfold isRetryableError.
  destruct (truthy (contextGet error "nonRetryable")); [reflexivity|]. simpl.
  destruct (codeIn networkCodes error) eqn:Hc.
  - rewrite (codeIn_network_truthy _ Hc). reflexivity.
  - rewrite andb_false_r. simpl.
    destruct (statusIn retryableStatus error) eqn:Hs.
    + rewrite (statusIn_retryable_truthy _ Hs). reflexivity.
    + destruct (statusTruthy error); simpl; [reflexivity|].
      destruct (String.eqb (name error) "TimeoutError"); reflexivity.
Qed.

(** C4, counterexample: an error named TimeoutError that also carries
    status 404 is classified TIMEOUT and yet is not retryable. *)
Lemma C4_counterexample :
  let error := plainError "TimeoutError" "navigation timed out" None (Some 404%Z) in
  classifyError error = TIMEOUT
  /\ isRetryableError error = false
  /\ ~ C4_as_stated.
Proof.
  cbv zeta. split; [reflexivity|]. split; [reflexivity|].
  intros H.
  specialize (H (plainError "TimeoutError" "navigation timed out" None (Some 404%Z))).
  vm_compute in H. discriminate.
Qed.

(* ----------------------------------------------------------------- *)
(** ** Backoff delay *)

Lemma jitterOf_range (random : Q) :
  (0 <= random)%Q -> (random < 1)%Q ->
  (9 # 10 <= jitterOf random)%Q /\ (jitterOf random <= 11 # 10)%Q.
Proof.
  intros H0 H1. unfold jitterOf. split; lra.
Qed.

(** C3.  For an attempt number of at least 1, a positive base delay, a
    maximum delay not below it and a draw of [Math.random()] in [0, 1), the
    jitter factor lies in [0.9, 1.1], the delay is the minimum of
    [baseDelay * 2^(attempt-1) * jitter] and [maxDelay], and so it never
    exceeds [maxDelay]; it also is positive. *)
Theorem C3_calculateDelay_capped
    (attempt : nat) (baseDelay maxDelay random : Q) :
  1 <= attempt ->
  (0 < baseDelay)%Q ->
  (baseDelay <= maxDelay)%Q ->
  (0 <= random)%Q -> (random < 1)%Q ->
  ((9 # 10 <= jitterOf random)%Q /\ (jitterOf random <= 11 # 10)%Q)
  /\ calculateDelay attempt baseDelay maxDelay random
     = Qmin (baseDelay * 2 ^ (Z.of_nat attempt - 1) * jitterOf random)%Q maxDelay
  /\ (calculateDelay attempt baseDelay maxDelay random <= maxDelay)%Q
  /\ (0 < calculateDelay attempt baseDelay maxDelay random)%Q.
Proof.
  intros _ Hbase Hmax H0 H1.
  pose proof (jitterOf_range random H0 H1) as [Hlo Hhi].
  split; [split; assumption|]. split; [reflexivity|].
  unfold calculateDelay. split; [apply Q.le_min_r|].
  apply Q.min_glb_lt.
  - apply Qmult_lt_0_compat; [apply Qmult_lt_0_compat|].
    + exact Hbase.
    + apply Qpower_0_lt. reflexivity.
    + lra.
  - lra.
Qed.

Lemma C3_calculateDelay_capped_witness :
  (calculateDelay 3 1000 30000 (1 # 2) <= 30000)%Q
  /\ (calculateDelay 6 1000 30000 (1 # 2) == 30000)%Q
  /\ (calculateDelay 3 1000 30000 (1 # 2) == 4000)%Q.
Proof.
  split.
  - refine (proj1 (proj2 (proj2
               (C3_calculateDelay_capped 3 1000 30000 (1 # 2) _ _ _ _ _)))).
    + lia.
    + reflexivity.
    + unfold Qle; simpl; lia.
    + unfold Qle; simpl; lia.
    + reflexivity.
  - split; reflexivity.
Defined.

(* ----------------------------------------------------------------- *)
(** ** The retry loop *)

Section RetryLoop.
Context {A : Type}.
Variable operation : nat -> A + JsError.
Variable opts : Retry.options.
Variable random : nat -> Q.

Lemma calls_app (t1 t2 : list event) : calls (t1 ++ t2) = calls t1 ++ calls t2.
Proof. unfold calls. apply omap_app. Qed.

(** [k] consecutive retryable failures, none of them on the last permitted
    attempt, advance the loop by [k] iterations and call the operation
    with the [k] consecutive attempt numbers. *)
Lemma attemptLoop_retries (k : nat) :
  forall (left attempt : nat) (lastError : option JsError) (trace : list event),
    k <= left ->
    attempt + k <= maxAttempts opts ->
    (forall i, attempt <= i < attempt + k ->
       exists e, operation i = inr e /\ isRetryableError e = true) ->
    exists lastError' trace',
      attemptLoop operation opts random left attempt lastError trace
      = attemptLoop operation opts random (left - k) (attempt + k)
          lastError' trace'
      /\ calls trace' = calls trace ++ seq attempt k.
Proof.
  induction k as [|k IH]; intros left attempt lastError trace Hk Hmax Hfail.
  - exists lastError, trace.
    rewrite Nat.sub_0_r, Nat.add_0_r, app_nil_r. split; reflexivity.
  - destruct left as [|left]; [lia|].
    destruct (Hfail attempt) as (e & He & Hr); [lia|].
    cbn [attemptLoop]. rewrite He, Hr.
    destruct (Nat.leb_spec (maxAttempts opts) attempt) as [Hle|_]; [lia|].
    cbn [negb].
    edestruct (IH left (S attempt)) as (lastError' & trace' & Heq & Hcalls);
      [lia | lia | intros i Hi; apply Hfail; lia |].
    exists lastError', trace'. split.
    + rewrite Heq. replace (S attempt + k) with (attempt + S k) by lia.
      reflexivity.
    + rewrite Hcalls. destruct (onRetry opts);
        rewrite !calls_app; cbn; rewrite ?app_nil_r, <- app_assoc; reflexivity.
Qed.

(** A failure on the attempt numbered [maxAttempts] leaves the loop
    through [break], whatever its kind. *)
Lemma attemptLoop_last (left : nat) (lastError : option JsError)
    (trace : list event) (err : JsError) :
  operation (maxAttempts opts) = inr err ->
  attemptLoop operation opts random (S left) (maxAttempts opts) lastError trace
  = (Rejected (wrapError err NETWORK (exhaustedContext (maxAttempts opts))),
     trace ++ [Called (maxAttempts opts)]).
Proof.
  intros He. cbn [attemptLoop]. rewrite He, Nat.leb_refl. reflexivity.
Qed.

(** A non-retryable failure before the last attempt is raised at once. *)
Lemma attemptLoop_nonRetryable (left attempt : nat)
    (lastError : option JsError) (trace : list event) (err : JsError) :
  attempt < maxAttempts opts ->
  operation attempt = inr err ->
  isRetryableError err = false ->
  attemptLoop operation opts random (S left) attempt lastError trace
  = (Rejected (wrapError err NETWORK (nonRetryableContext attempt)),
     trace ++ [Called attempt]).
Proof.
  intros Hlt He Hr. cbn [attemptLoop]. rewrite He, Hr.
  destruct (Nat.leb_spec (maxAttempts opts) attempt) as [Hle|_]; [lia|].
  reflexivity.
Qed.

Lemma sleeps_app (t1 t2 : list event) :
  sleeps (t1 ++ t2) = sleeps t1 ++ sleeps t2.
Proof. unfold sleeps. apply omap_app. Qed.

(** Every pause the loop makes between two attempts is at most
    [maxDelay], whatever the operation does and whatever is drawn. *)
Lemma attemptLoop_sleeps_capped (left : nat) :
  forall (attempt : nat) (lastError : option JsError) (trace : list event),
    Forall (fun d => (d <= maxDelay opts)%Q) (sleeps trace) ->
    Forall (fun d => (d <= maxDelay opts)%Q)
      (sleeps (snd (attemptLoop operation opts random left attempt
                      lastError trace))).
Proof.
  induction left as [|left IH]; intros attempt lastError trace Htrace.
  - exact Htrace.
  - assert (Hcalled : Forall (fun d => (d <= maxDelay opts)%Q)
                        (sleeps (trace ++ [Called attempt]))).
    { rewrite sleeps_app, app_nil_r. exact Htrace. }
    cbn [attemptLoop].
    destruct (operation attempt) as [result|error]; [exact Hcalled|].
    destruct (maxAttempts opts <=? attempt); [exact Hcalled|].
    destruct (negb (isRetryableError error)); [exact Hcalled|].
    apply IH. rewrite sleeps_app. apply Forall_app. split.
    + destruct (onRetry opts); [|exact Hcalled].
      rewrite sleeps_app, app_nil_r. exact Hcalled.
    + constructor; [|constructor].
      unfold calculateDelay. apply Q.le_min_r.
Qed.

Lemma executeWithRetry_sleeps_capped :
  Forall (fun d => (d <= maxDelay opts)%Q)
    (sleeps (snd (executeWithRetry operation opts random))).
Proof.
  unfold executeWithRetry. apply attemptLoop_sleeps_capped. constructor.
Qed.

End RetryLoop.

Lemma contextGet_wrapError (error : JsError) (type : ErrorType)
    (ctx : gmap string value) (key : string) :
  isScrapingError error = false ->
  contextGet (wrapError error type ctx) key = default VUndefined (ctx !! key).
Proof.
  intros H. unfold wrapError. rewrite H. reflexivity.
Qed.

Lemma wrapError_scraping (error : JsError) (type : ErrorType)
    (ctx : gmap string value) :
  isScrapingError error = true -> wrapError error type ctx = error.
Proof.
  intros H. unfold wrapError. rewrite H. reflexivity.
Qed.

(** C1, amended.  When the attempts before [n] fail with retryable errors
    and attempt [n] fails with an error that is not retryable, the operation
    is called for the attempts 1 to [n] and no more.  If [n] is not the last
    permitted attempt, the raised value is
    [wrapError(error, NETWORK, {nonRetryable: true, attemptsMade: n})]: an
    error that is not yet a ScrapingError is wrapped and its context carries
    [nonRetryable = true] and [attemptsMade = n], a ScrapingError is raised
    as it is.  If [n] is the last permitted attempt, the raised value is
    [wrapError(error, NETWORK, {totalAttempts, message})] instead. *)
Theorem C1_nonRetryable_failure
    (operation : nat -> unit + JsError) (opts : Retry.options)
    (random : nat -> Q) (n : nat) (err : JsError) :
  1 <= n <= maxAttempts opts ->
  (forall i, 1 <= i < n ->
     exists e, operation i = inr e /\ isRetryableError e = true) ->
  operation n = inr err ->
  isRetryableError err = false ->
  calls (snd (executeWithRetry operation opts random)) = seq 1 n
  /\ fst (executeWithRetry operation opts random)
     = Rejected
         (wrapError err NETWORK
            (if n <? maxAttempts opts then nonRetryableContext n
             else exhaustedContext (maxAttempts opts)))
  /\ (n < maxAttempts opts -> isScrapingError err = false ->
      forall w, fst (executeWithRetry operation opts random) = Rejected w ->
        isScrapingError w = true
        /\ contextGet w "nonRetryable" = VBool true
        /\ contextGet w "attemptsMade" = VNum (Z.of_nat n))
  /\ (isScrapingError err = true ->
      fst (executeWithRetry operation opts random) = Rejected err).
Proof.
  intros [H1 Hn] Hfail He Hr.
  destruct (attemptLoop_retries operation opts random (n - 1)
              (maxAttempts opts) 1 None [])
    as (lastError' & trace' & Heq & Hcalls);
    [lia | lia | intros i Hi; apply Hfail; lia |].
  replace (1 + (n - 1)) with n in Heq by lia.
  unfold executeWithRetry. rewrite Heq.
  destruct (maxAttempts opts - (n - 1)) as [|left] eqn:Hleft; [lia|].
  assert (Hseq : seq 1 n = seq 1 (n - 1) ++ [n]).
  { replace n with ((n - 1) + 1) at 1 by lia. rewrite seq_app.
    replace (1 + (n - 1)) with n by lia. reflexivity. }
  destruct (Nat.ltb_spec n (maxAttempts opts)) as [Hlt|Hge].
  - rewrite (attemptLoop_nonRetryable operation opts random left n
               lastError' trace' err Hlt He Hr).
    cbn [fst snd]. rewrite calls_app, Hcalls, Hseq. cbn.
    split; [reflexivity|]. split; [reflexivity|]. split.
    + intros _ Hs w Hw. injection Hw as <-.
      unfold wrapError. rewrite Hs. split; [reflexivity|].
      split; reflexivity.
    + intros Hs. rewrite wrapError_scraping by assumption. reflexivity.
  - assert (n = maxAttempts opts) as Hmax by lia.
    rewrite Hmax in He |- *.
    rewrite (attemptLoop_last operation opts random left lastError' trace'
               err He).
    cbn [fst snd]. rewrite calls_app, Hcalls.
    rewrite <- Hmax at 1. rewrite <- Hmax at 1. rewrite Hseq. cbn.
    rewrite Hmax.
    split; [reflexivity|]. split; [reflexivity|]. split.
    + intros Hlt. lia.
    + intros Hs. rewrite wrapError_scraping by assumption. reflexivity.
Qed.

Lemma C1_nonRetryable_failure_witness :
  let operation : nat -> unit + JsError :=
    fun attempt =>
      if attempt =? 1
      then inr (plainError "Error" "bad gateway" None (Some 502%Z))
      else inr (plainError "Error" "not found" None (Some 404%Z)) in
  let opts := Retry.MkOptions 3 1000 30000 true in
  calls (snd (executeWithRetry operation opts midDraw)) = [1; 2].
Proof.
  intros operation opts.
  refine (proj1 (C1_nonRetryable_failure operation opts midDraw 2
                   (plainError "Error" "not found" None (Some 404%Z))
                   _ _ _ _)).
  - simpl. lia.
  - intros i Hi. assert (i = 1) as -> by lia.
    eexists. split; reflexivity.
  - reflexivity.
  - reflexivity.
Defined.

(** C1, counterexample: with [maxAttempts = 1] an operation failing with a
    404 error is rejected through the exhaustion path; the context of the
    raised error has [totalAttempts] and no [nonRetryable].  And a
    ScrapingError of type PARSE thrown on the first of two attempts, as the
    converter does, is raised as it is: its context has no [nonRetryable]
    either. *)
Lemma C1_counterexample :
  let operation : nat -> unit + JsError :=
    fun _ => inr (plainError "Error" "not found" None (Some 404%Z)) in
  let opts := Retry.MkOptions 1 1000 30000 false in
  let parseFailure :=
    ScrapingError "unexpected token" PARSE {[ "converter" := VStr "mdream" ]}
      None in
  (exists w,
     fst (executeWithRetry operation opts midDraw) = Rejected w
     /\ contextGet w "nonRetryable" = VUndefined
     /\ contextGet w "totalAttempts" = VNum 1)
  /\ (isRetryableError parseFailure = false
      /\ fst (executeWithRetry (fun _ => inr parseFailure : unit + JsError)
                (Retry.MkOptions 2 100 500 false) midDraw)
         = Rejected parseFailure
      /\ contextGet parseFailure "nonRetryable" = VUndefined)
  /\ ~ C1_as_stated.
Proof.
  intros operation opts parseFailure. split; [|split].
  - eexists. split; [reflexivity|]. split; vm_compute; reflexivity.
  - split; [reflexivity|]. split; [reflexivity|]. vm_compute. reflexivity.
  - intros H.
    destruct (H operation opts midDraw 1
                (plainError "Error" "not found" None (Some 404%Z)))
      as (w & Hw & _ & Hnr & _).
    + simpl. lia.
    + intros i Hi. lia.
    + reflexivity.
    + reflexivity.
    + assert (Hrun : fst (executeWithRetry operation opts midDraw)
                     = Rejected
                         (wrapError
                            (plainError "Error" "not found" None (Some 404%Z))
                            NETWORK (exhaustedContext 1))) by reflexivity.
      rewrite Hrun in Hw. injection Hw as <-.
      vm_compute in Hnr. discriminate.
Qed.




(* ----------------------------------------------------------------- *)
(** ** Lines of a text *)

Lemma splitLines_nonempty (s : list ascii) : splitLines s <> [].
Proof.
  destruct s as [|c s]; cbn; [discriminate|].
  destruct (Ascii.eqb c LF); [discriminate|].
  destruct (splitLines s); discriminate.
Qed.

Lemma joinLines_cons (l : list ascii) (ls : list (list ascii)) :
  ls <> [] -> joinLines (l :: ls) = l ++ LF :: joinLines ls.
Proof. destruct ls; [congruence|reflexivity]. Qed.

Lemma joinLines_splitLines (s : list ascii) : joinLines (splitLines s) = s.
Proof.
  induction s as [|c s IH]; [reflexivity|]. cbn [splitLines].
  destruct (Ascii.eqb_spec c LF) as [->|Hc].
  - rewrite joinLines_cons by apply splitLines_nonempty. rewrite IH. reflexivity.
  - pose proof (splitLines_nonempty s) as Hne.
    destruct (splitLines s) as [|l ls]; [congruence|].
    destruct ls as [|l' ls'].
    + cbn [joinLines] in *. rewrite IH. reflexivity.
    + rewrite joinLines_cons in IH by discriminate.
      rewrite joinLines_cons by discriminate.
      rewrite <- IH. reflexivity.
Qed.

Lemma splitLines_NoLF (s : list ascii) : Forall NoLF (splitLines s).
Proof.
  induction s as [|c s IH]; cbn [splitLines].
  - repeat constructor.
  - destruct (Ascii.eqb_spec c LF) as [->|Hc].
    + constructor; [constructor|exact IH].
    + destruct (splitLines s) as [|l ls]; [repeat constructor; assumption|].
      inversion IH; subst. constructor; [constructor; assumption|assumption].
Qed.

Lemma splitLines_line (l : list ascii) : NoLF l -> splitLines l = [l].
Proof.
  induction 1 as [|c l Hc _ IH]; [reflexivity|]. cbn [splitLines].
  destruct (Ascii.eqb_spec c LF); [contradiction|]. rewrite IH. reflexivity.
Qed.

Lemma splitLines_app_LF (l s : list ascii) :
  NoLF l -> splitLines (l ++ LF :: s) = l :: splitLines s.
Proof.
  induction 1 as [|c l Hc _ IH]; [reflexivity|].
  cbn [app splitLines].
  destruct (Ascii.eqb_spec c LF); [contradiction|]. rewrite IH. reflexivity.
Qed.

Lemma splitLines_joinLines (ls : list (list ascii)) :
  ls <> [] -> Forall NoLF ls -> splitLines (joinLines ls) = ls.
Proof.
  induction ls as [|l ls IH]; [congruence|]. intros _ Hall.
  inversion Hall as [|? ? Hl Hls]; subst.
  destruct ls as [|l' ls'].
  - apply splitLines_line. assumption.
  - rewrite joinLines_cons by discriminate.
    rewrite splitLines_app_LF by assumption.
    rewrite IH; [reflexivity|discriminate|assumption].
Qed.

(* ----------------------------------------------------------------- *)
(** ** Table-of-contents deduplication *)

Lemma tocLoop_result_app (lines : list (list ascii)) :
  forall inToc tocLines seenToc r0 r,
    tocLoop lines inToc tocLines seenToc (r0 ++ r)
    = r0 ++ tocLoop lines inToc tocLines seenToc r.
Proof.
  induction lines as [|line rest IH]; intros; cbn [tocLoop]; [reflexivity|].
  repeat match goal with
         | |- context [if ?b then _ else _] => destruct b
         end;
    rewrite <- ?app_assoc, ?IH; reflexivity.
Qed.

(** While the scanner is outside a block, the stale [tocLines] is never read. *)
Lemma tocLoop_outside (lines : list (list ascii)) :
  forall tocLines seenToc result,
    tocLoop lines false tocLines seenToc result
    = tocLoop lines false [] seenToc result.
Proof.
  induction lines as [|line rest IH]; intros; cbn [tocLoop]; [reflexivity|].
  destruct (isTocItemLine line); cbn; [reflexivity|]. apply IH.
Qed.

Lemma tocLoop_run_open (run : list (list ascii)) :
  TocLines run ->
  forall rest tocLines seenToc result,
    tocLoop (run ++ rest) true tocLines seenToc result
    = tocLoop rest true (tocLines ++ run) seenToc result.
Proof.
  induction 1 as [|x run Hx _ IH]; intros; cbn [app tocLoop].
  - rewrite app_nil_r. reflexivity.
  - rewrite Hx. cbn. rewrite IH, <- app_assoc. reflexivity.
Qed.

Lemma tocLoop_run_start (run : list (list ascii)) :
  TocLines run -> run <> [] ->
  forall rest tocLines seenToc result,
    tocLoop (run ++ rest) false tocLines seenToc result
    = tocLoop rest true run seenToc result.
Proof.
  intros Hrun Hne rest tocLines seenToc result.
  destruct Hrun as [|x run Hx Hrun]; [congruence|].
  cbn [app tocLoop]. rewrite Hx. cbn.
  apply (tocLoop_run_open run Hrun rest [x]).
Qed.

(** A run that reaches the end of the input leaves the result as it is. *)
Lemma tocLoop_trailing_run (run : list (list ascii)) :
  TocLines run ->
  forall inToc tocLines seenToc result,
    tocLoop run inToc tocLines seenToc result = result.
Proof.
  intros Hrun inToc tocLines seenToc result.
  destruct inToc.
  - rewrite <- (app_nil_r run), tocLoop_run_open by assumption. reflexivity.
  - destruct run as [|x run]; [reflexivity|].
    rewrite <- (app_nil_r (x :: run)).
    rewrite (tocLoop_run_start (x :: run) Hrun) by discriminate.
    reflexivity.
Qed.

Lemma tocLoop_drop_trailing (pre run : list (list ascii)) :
  TocLines run ->
  forall inToc tocLines seenToc result,
    tocLoop (pre ++ run) inToc tocLines seenToc result
    = tocLoop pre inToc tocLines seenToc result.
Proof.
  intros Hrun. induction pre as [|line pre IH]; intros; cbn [app].
  - rewrite tocLoop_trailing_run by assumption. reflexivity.
  - cbn [tocLoop].
    repeat match goal with
           | |- context [if ?b then _ else _] => destruct b
           end; apply IH.
Qed.

Lemma tocLoop_plain (pre : list (list ascii)) :
  PlainLines pre ->
  forall rest tocLines seenToc result,
    tocLoop (pre ++ rest) false tocLines seenToc result
    = tocLoop rest false tocLines seenToc (result ++ pre).
Proof.
  induction 1 as [|x pre Hx _ IH]; intros; cbn [app tocLoop].
  - rewrite app_nil_r. reflexivity.
  - rewrite Hx. rewrite IH, <- app_assoc. reflexivity.
Qed.

(** Once a block has been kept, every later TOC-item line is deleted and
    every other line is kept. *)
Lemma tocLoop_after_seen (lines : list (list ascii)) :
  forall inToc tocLines result,
    tocLoop lines inToc tocLines true result
    = result ++ List.filter (fun l => negb (isTocItemLine l)) lines.
Proof.
  induction lines as [|line rest IH]; intros; cbn [tocLoop List.filter].
  - rewrite app_nil_r. reflexivity.
  - destruct (isTocItemLine line); cbn.
    + destruct inToc; cbn; apply IH.
    + destruct inToc; cbn; rewrite IH, <- app_assoc; reflexivity.
Qed.

(** A maximal run of admissible size met before any block was kept is
    kept; what follows is filtered. *)
Lemma tocLoop_first_block (run : list (list ascii)) (y : list ascii)
    (post : list (list ascii)) (tocLines result : list (list ascii)) :
  TocLines run -> 2 < length run < 30 -> isTocItemLine y = false ->
  tocLoop (run ++ y :: post) false tocLines false result
  = result ++ run ++ y :: List.filter (fun l => negb (isTocItemLine l)) post.
Proof.
  intros Hrun [Hlo Hhi] Hy.
  assert (Hne : run <> []) by (destruct run; cbn in *; [lia|discriminate]).
  rewrite (tocLoop_run_start run Hrun Hne).
  cbn [tocLoop]. rewrite Hy. cbn [negb andb].
  destruct (Nat.ltb_spec (length run) 30) as [_|?]; [|lia].
  destruct (Nat.ltb_spec 2 (length run)) as [_|?]; [|lia].
  cbn. rewrite tocLoop_after_seen, <- !app_assoc. reflexivity.
Qed.

(** A maximal run whose size is out of range is deleted and leaves the
    scanner as it found it. *)
Lemma tocLoop_out_of_range (run : list (list ascii)) (y : list ascii)
    (post : list (list ascii)) (tocLines : list (list ascii))
    (seenToc : bool) (result : list (list ascii)) :
  TocLines run -> length run <= 2 \/ 30 <= length run ->
  isTocItemLine y = false ->
  tocLoop (run ++ y :: post) false tocLines seenToc result
  = tocLoop (y :: post) false tocLines seenToc result.
Proof.
  intros Hrun Hlen Hy.
  destruct run as [|x run]; [reflexivity|].
  rewrite (tocLoop_run_start (x :: run) Hrun) by discriminate.
  cbn [tocLoop]. rewrite Hy.
  replace (negb seenToc && (length (x :: run) <? 30) && (2 <? length (x :: run)))
    with false.
  - symmetry. apply tocLoop_outside.
  - symmetry. destruct Hlen as [Hlen|Hlen].
    + destruct (Nat.ltb_spec 2 (length (x :: run))); [lia|].
      apply andb_false_r.
    + destruct (Nat.ltb_spec (length (x :: run)) 30); [lia|].
      rewrite andb_false_r. reflexivity.
Qed.

(** One iteration of the loop: the state after a line does not depend on
    the lines behind it, and after a line that is no TOC item the scanner
    is outside a block. *)
Lemma tocLoop_step (x : list ascii) (inToc : bool)
    (tocLines : list (list ascii)) (seenToc : bool)
    (result : list (list ascii)) :
  exists inToc' tocLines' seenToc' result',
    (isTocItemLine x = false -> inToc' = false)
    /\ forall rest,
         tocLoop (x :: rest) inToc tocLines seenToc result
         = tocLoop rest inToc' tocLines' seenToc' result'.
Proof.
  cbn [tocLoop].
  destruct (isTocItemLine x); [destruct (negb inToc)|destruct inToc];
    try destruct (negb seenToc && (length tocLines <? 30) && (2 <? length tocLines));
    do 4 eexists; (split; [|intros; reflexivity]); intros;
    first [discriminate | reflexivity].
Qed.

(** Cutting a maximal out-of-range run out of the input does not change
    what the scanner returns. *)
Lemma tocLoop_cut_block (run : list (list ascii)) (y : list ascii)
    (post : list (list ascii)) :
  TocLines run -> length run <= 2 \/ 30 <= length run ->
  isTocItemLine y = false ->
  forall pre inToc tocLines seenToc result,
    (pre = [] -> inToc = false) ->
    (forall x, last pre = Some x -> isTocItemLine x = false) ->
    tocLoop (pre ++ run ++ y :: post) inToc tocLines seenToc result
    = tocLoop (pre ++ y :: post) inToc tocLines seenToc result.
Proof.
  intros Hrun Hlen Hy.
  induction pre as [|x pre IH]; intros inToc tocLines seenToc result Hnil Hlast.
  - rewrite (Hnil eq_refl). cbn [app].
    apply tocLoop_out_of_range; assumption.
  - destruct (tocLoop_step x inToc tocLines seenToc result)
      as (inToc' & tocLines' & seenToc' & result' & Hout & Hstep).
    cbn [app]. rewrite !Hstep.
    apply IH.
    + intros ->. apply Hout, Hlast. reflexivity.
    + intros z Hz. apply Hlast. destruct pre; [discriminate|exact Hz].
Qed.

(** The first TOC-shaped block of a document is kept, verbatim and in
    place, when its size is admissible and a non-TOC line follows it; every
    later TOC-item line is deleted and every other line is kept. *)
Lemma removeDuplicateTOC_first_block
    (markdown : list ascii) (pre run post : list (list ascii)) (y : list ascii) :
  splitLines markdown = pre ++ run ++ y :: post ->
  PlainLines pre -> TocLines run -> 2 < length run < 30 ->
  isTocItemLine y = false ->
  removeDuplicateTOC markdown
  = joinLines (pre ++ run ++ y
               :: List.filter (fun l => negb (isTocItemLine l)) post).
Proof.
  intros Hsplit Hpre Hrun Hlen Hy. unfold removeDuplicateTOC.
  rewrite Hsplit, (tocLoop_plain pre Hpre).
  rewrite tocLoop_first_block by assumption. reflexivity.
Qed.

(** C10.  A run of TOC-item lines that reaches the end of the input
    contributes nothing to the output, whatever its size and whether or
    not a block was kept before it: the output is what the scan produces
    on the lines in front of the run.  In particular, when no line in front
    of it is a TOC item, so that the run is the first TOC-shaped run of the
    document, the output is just those lines, even for a run of admissible
    size. *)
Theorem C10_run_open_at_end_is_dropped
    (markdown : list ascii) (pre run : list (list ascii)) :
  splitLines markdown = pre ++ run ->
  run <> [] ->
  TocLines run ->
  removeDuplicateTOC markdown = joinLines (tocLoop pre false [] false [])
  /\ (PlainLines pre -> removeDuplicateTOC markdown = joinLines pre).
Proof.
  intros Hsplit _ Hrun. unfold removeDuplicateTOC. rewrite Hsplit.
  rewrite tocLoop_drop_trailing by assumption.
  split; [reflexivity|]. intros Hpre.
  rewrite <- (app_nil_r pre) at 1.
  rewrite (tocLoop_plain pre Hpre). reflexivity.
Qed.

Lemma C10_run_open_at_end_is_dropped_witness :
  removeDuplicateTOC
    (joinLines (map lit ["# Guide"; "- [Install](#install)"; "- [Usage](#usage)";
                         "- [License](#license)"]%string))
  = lit "# Guide".
Proof.
  refine (proj2 (C10_run_open_at_end_is_dropped _
                   [lit "# Guide"]
                   (map lit ["- [Install](#install)"; "- [Usage](#usage)";
                             "- [License](#license)"]%string) _ _ _) _).
  - reflexivity.
  - discriminate.
  - repeat constructor.
  - repeat constructor.
Defined.

(** C5, the defect.  A document made of three TOC-item lines, and a
    document whose heading is followed by a five-item block, lose the block:
    the first, admissibly sized run is not retained when it reaches the end
    of the input.  With a line of body text behind the block the same block
    is kept, and of two identical five-item blocks separated by body text
    the first is kept and the second deleted. *)
Theorem C5_first_block_at_end_of_input_is_lost :
  let toc5 := map lit ["- [One](#one)"; "- [Two](#two)"; "- [Three](#three)";
                       "- [Four](#four)"; "- [Five](#five)"]%string in
  removeDuplicateTOC
    (joinLines (map lit ["- [A](#a)"; "- [B](#b)"; "- [C](#c)"]%string)) = []
  /\ removeDuplicateTOC (joinLines (lit "# Guide" :: toc5)) = lit "# Guide"
  /\ removeDuplicateTOC (joinLines (lit "# Guide" :: toc5 ++ [lit "Body."]))
     = joinLines (lit "# Guide" :: toc5 ++ [lit "Body."])
  /\ removeDuplicateTOC
       (joinLines (toc5 ++ [lit "Body one."; lit "Body two."] ++ toc5
                   ++ [lit "Body three."]))
     = joinLines (toc5 ++ [lit "Body one."; lit "Body two."; lit "Body three."]).
Proof.
  cbv zeta. repeat split; vm_compute; reflexivity.
Qed.

(** C6, amended.  A maximal run of TOC-item lines whose size is out of
    range (at most 2 or at least 30 items, so in particular exactly 1 or
    exactly 35) and that is followed by a non-TOC line is never adopted as
    the surviving block and does not count as a block seen: its lines are
    deleted, and the output is that of the same document with the run cut
    out.  When the document has no other TOC-item line, the output is the
    document without the run. *)
Theorem C6_out_of_range_block_is_deleted
    (markdown : list ascii) (pre run post : list (list ascii)) (y : list ascii) :
  splitLines markdown = pre ++ run ++ y :: post ->
  (forall x, last pre = Some x -> isTocItemLine x = false) ->
  TocLines run ->
  isTocItemLine y = false ->
  length run <= 2 \/ 30 <= length run ->
  removeDuplicateTOC markdown
  = joinLines (tocLoop (pre ++ y :: post) false [] false [])
  /\ (PlainLines pre -> PlainLines post ->
      removeDuplicateTOC markdown = joinLines (pre ++ y :: post)).
Proof.
  intros Hsplit Hlast Hrun Hy Hlen. unfold removeDuplicateTOC. rewrite Hsplit.
  rewrite (tocLoop_cut_block run y post Hrun Hlen Hy pre false [] false [])
    by (reflexivity || assumption).
  split; [reflexivity|]. intros Hpre Hpost.
  assert (Hall : PlainLines (pre ++ y :: post)).
  { apply Forall_app. split; [assumption|]. constructor; assumption. }
  rewrite <- (app_nil_r (pre ++ y :: post)) at 1.
  rewrite (tocLoop_plain _ Hall). reflexivity.
Qed.

Lemma C6_out_of_range_block_is_deleted_witness :
  removeDuplicateTOC
    (joinLines (lit "Intro." :: repeat (lit "- [Item](#item)") 35 ++ [lit "Body."]))
  = joinLines [lit "Intro."; lit "Body."].
Proof.
  refine (proj2 (C6_out_of_range_block_is_deleted _
                   [lit "Intro."] (repeat (lit "- [Item](#item)") 35) []
                   (lit "Body.") _ _ _ _ _) _ _).
  - vm_compute. reflexivity.
  - intros x Hx. injection Hx as <-. vm_compute. reflexivity.
  - repeat constructor.
  - vm_compute. reflexivity.
  - right. simpl. lia.
  - repeat constructor.
  - constructor.
Defined.

(** C6, counterexample: a one-item block between two plain lines is
    deleted; it does not pass through. *)
Lemma C6_counterexample :
  removeDuplicateTOC
    (joinLines (map lit ["Intro."; "- [Only](#only)"; "Body."]%string))
  = joinLines (map lit ["Intro."; "Body."]%string)
  /\ ~ C6_as_stated.
Proof.
  split; [vm_compute; reflexivity|].
  intros H.
  specialize (H (joinLines (map lit ["Intro."; "- [Only](#only)"; "Body."]%string))
                [lit "Intro."] [lit "- [Only](#only)"] [] (lit "Body.")).
  assert (Hne : removeDuplicateTOC
                  (joinLines (map lit ["Intro."; "- [Only](#only)"; "Body."]%string))
                <> joinLines (map lit ["Intro."; "- [Only](#only)"; "Body."]%string))
    by (vm_compute; discriminate).
  apply Hne, H.
  - vm_compute. reflexivity.
  - repeat constructor.
  - repeat constructor.
  - vm_compute. reflexivity.
  - constructor.
  - left. reflexivity.
Qed.

(* ----------------------------------------------------------------- *)
(** ** Substrings *)

Lemma startsWith_app_l (a b k : list ascii) :
  startsWith a k = true -> startsWith (a ++ b) k = true.
Proof.
  revert a. induction k as [|x k IH]; intros a H; [reflexivity|].
  destruct a as [|y a]; [discriminate|]. cbn in *.
  apply andb_true_iff in H as [-> H]. cbn. apply IH, H.
Qed.

Lemma includes_app_l (a b k : list ascii) :
  includes a k = true -> includes (a ++ b) k = true.
Proof.
  induction a as [|y a IH]; cbn [includes]; intros H.
  - rewrite orb_false_r in H. destruct k; [|discriminate].
    destruct b; reflexivity.
  - apply orb_true_iff in H as [H|H].
    + pose proof (startsWith_app_l (y :: a) b k H) as H'.
      change ((y :: a) ++ b) with (y :: (a ++ b)) in H' |- *.
      cbn [includes]. rewrite H'. reflexivity.
    + change ((y :: a) ++ b) with (y :: (a ++ b)). cbn [includes].
      rewrite (IH H). apply orb_true_r.
Qed.

Lemma toLowerCase_app (a b : list ascii) :
  toLowerCase (a ++ b) = toLowerCase a ++ toLowerCase b.
Proof. apply map_app. Qed.

(* ----------------------------------------------------------------- *)
(** ** The menu scanner *)

Lemma scan_cleaned_app (lines : list (list ascii)) :
  forall skipMode c0 cleaned,
    scan lines skipMode (c0 ++ cleaned) = c0 ++ scan lines skipMode cleaned.
Proof.
  induction lines as [|line rest IH]; intros; [reflexivity|].
  cbn [scan].
  repeat match goal with
         | |- context [if ?b then _ else _] => destruct b
         end;
    rewrite <- ?app_assoc, ?IH; reflexivity.
Qed.

(** One iteration: the line is dropped or pushed, and the loop goes on. *)
Lemma scan_step (line : list ascii) (rest : list (list ascii))
    (skipMode : nat) (cleaned : list (list ascii)) :
  exists skipMode' kept,
    sublist kept [line]
    /\ scan (line :: rest) skipMode cleaned = scan rest skipMode' (cleaned ++ kept).
Proof.
  cbn [scan].
  repeat match goal with
         | |- context [if ?b then _ else _] => destruct b
         end;
    first [ exists skipMode, []; rewrite app_nil_r;
            split; [apply sublist_nil_l|reflexivity]
          | eexists _, []; rewrite app_nil_r;
            split; [apply sublist_nil_l|reflexivity]
          | eexists _, [line]; split; [reflexivity|reflexivity] ].
Qed.

(** Scanning a prefix keeps some of its lines, in order, and hands the rest
    of the input over in some mode. *)
Lemma scan_prefix (pre suf : list (list ascii)) :
  forall skipMode cleaned,
    exists skipMode' kept,
      sublist kept pre
      /\ scan (pre ++ suf) skipMode cleaned = scan suf skipMode' (cleaned ++ kept).
Proof.
  induction pre as [|line pre IH]; intros skipMode cleaned.
  - exists skipMode, []. rewrite app_nil_r. split; [constructor|reflexivity].
  - destruct (scan_step line (pre ++ suf) skipMode cleaned)
      as (m1 & k1 & Hk1 & Hstep).
    destruct (IH m1 (cleaned ++ k1)) as (m2 & k2 & Hk2 & Hrest).
    exists m2, (k1 ++ k2). split.
    + change (line :: pre) with ([line] ++ pre). apply sublist_app; assumption.
    + cbn [app]. rewrite Hstep, Hrest, <- app_assoc. reflexivity.
Qed.

Lemma scan_all (lines : list (list ascii)) (skipMode : nat)
    (cleaned : list (list ascii)) :
  exists kept, sublist kept lines /\ scan lines skipMode cleaned = cleaned ++ kept.
Proof.
  destruct (scan_prefix lines [] skipMode cleaned) as (m & kept & Hk & Hs).
  rewrite app_nil_r in Hs. exists kept. split; [assumption|exact Hs].
Qed.

(** Inside a list-shaped menu a line that starts with a dash is dropped,
    unless it reads as a section header. *)
Lemma scan_dash_in_menu (line : list ascii) (rest : list (list ascii))
    (cleaned : list (list ascii)) :
  startsWith (trim line) dash = true ->
  isMenuSectionHeader (trim line) = false ->
  scan (line :: rest) 1 cleaned = scan rest 1 cleaned.
Proof.
  intros Hdash Hhdr. cbn [scan]. rewrite Hhdr, Hdash.
  destruct (hasNavigationKeyword (trim line)); [reflexivity|].
  destruct (startsMenuList (trim line) (line :: rest)); reflexivity.
Qed.

(** The first non-empty line without a dash ends the menu and is kept,
    unless another rule drops it. *)
Lemma scan_plain_ends_menu (line : list ascii) (rest : list (list ascii))
    (cleaned : list (list ascii)) :
  0 < length (trim line) ->
  startsWith (trim line) dash = false ->
  hasNavigationKeyword (trim line) = false ->
  isMenuSectionHeader (trim line) = false ->
  isLinkChrome (trim line) = false ->
  scan (line :: rest) 1 cleaned = scan rest 0 (cleaned ++ [line]).
Proof.
  intros Hlen Hdash Hkw Hhdr Hlink. cbn [scan].
  rewrite Hkw, Hhdr, Hlink. unfold startsMenuList. rewrite Hdash.
  assert (Hpos : (0 <? length (trim line)) = true) by (apply Nat.ltb_lt; lia).
  rewrite Hpos. reflexivity.
Qed.

Lemma menu_window (l1 l2 l3 l4 l5 : list ascii) (post : list (list ascii)) :
  includes (toLowerCase (joinLines [l1; l2; l3; l4])) (lit "logo") = true ->
  includes (toLowerCase (joinLines [l1; l2; l3; l4])) (lit "navigate to") = true ->
  isMenuList (listContentAt (l1 :: l2 :: l3 :: l4 :: l5 :: post)) = true.
Proof.
  intros Hlogo Hnav.
  assert (Hwin : listContentAt (l1 :: l2 :: l3 :: l4 :: l5 :: post)
                 = toLowerCase (joinLines [l1; l2; l3; l4])
                   ++ toLowerCase (LF :: joinLines (l5 :: take 15 post))).
  { unfold listContentAt. rewrite <- toLowerCase_app. f_equal.
    cbn [take].
    rewrite !joinLines_cons by discriminate.
    cbn [joinLines]. rewrite <- !app_assoc. cbn [app].
    repeat (rewrite <- app_assoc; cbn [app]). reflexivity. }
  unfold isMenuList. rewrite Hwin.
  rewrite (includes_app_l _ _ _ Hlogo), (includes_app_l _ _ _ Hnav).
  reflexivity.
Qed.

(** Whatever the mode in which the scanner arrives, a menu run that it
    recognises at its first line is dropped whole and the plain line
    behind it is pushed, leaving the scanner in normal mode. *)
Lemma scan_menu_run (l1 l2 l3 l4 l5 : list ascii) (post : list (list ascii))
    (skipMode : nat) (cleaned : list (list ascii)) :
  menuRunThenPlain l1 l2 l3 l4 l5 ->
  hasNavigationKeyword (trim l1) = false ->
  Forall (fun l => isMenuSectionHeader (trim l) = false) [l1; l2; l3; l4] ->
  scan (l1 :: l2 :: l3 :: l4 :: l5 :: post) skipMode cleaned
  = scan post 0 (cleaned ++ [l5]).
Proof.
  intros (Hdash & Hlogo & Hnav & Hlen & Hnd & Hkw & Hhdr & Hlink) Hkw1 Hhdrs.
  inversion Hdash as [|? ? Hd1 Hdash1]; subst.
  inversion Hdash1 as [|? ? Hd2 Hdash2]; subst.
  inversion Hdash2 as [|? ? Hd3 Hdash3]; subst.
  inversion Hdash3 as [|? ? Hd4 _]; subst.
  inversion Hhdrs as [|? ? Hh1 Hhdrs1]; subst.
  inversion Hhdrs1 as [|? ? Hh2 Hhdrs2]; subst.
  inversion Hhdrs2 as [|? ? Hh3 Hhdrs3]; subst.
  inversion Hhdrs3 as [|? ? Hh4 _]; subst.
  assert (Hstart : startsMenuList (trim l1) (l1 :: l2 :: l3 :: l4 :: l5 :: post) = true).
  { unfold startsMenuList. rewrite Hd1, Hd2.
    rewrite (menu_window l1 l2 l3 l4 l5 post Hlogo Hnav). reflexivity. }
  assert (Hfirst : scan (l1 :: l2 :: l3 :: l4 :: l5 :: post) skipMode cleaned
                   = scan (l2 :: l3 :: l4 :: l5 :: post) 1 cleaned).
  { set (tail := l2 :: l3 :: l4 :: l5 :: post) in *.
    cbn [scan]. rewrite Hkw1, Hh1, Hstart. reflexivity. }
  rewrite Hfirst.
  rewrite (scan_dash_in_menu l2) by assumption.
  rewrite (scan_dash_in_menu l3) by assumption.
  rewrite (scan_dash_in_menu l4) by assumption.
  apply scan_plain_ends_menu; assumption.
Qed.

(** C7, amended.  Take four contiguous lines that start with a dash and
    whose joined, lower-cased text contains "logo" and "navigate to",
    followed by a non-empty line that does not start with a dash and that
    no drop rule matches.  If the first of the four contains no chrome
    phrase and none of the four reads as a section header, the scanner
    drops all four and keeps the plain line: the lines it retains are
    lines kept from in front of the run, then the plain line, then lines
    kept from behind it; the text returned is their join with blank runs
    collapsed and the ends trimmed. *)
Theorem C7_menu_run_dropped
    (markdown : list ascii) (pre post : list (list ascii))
    (l1 l2 l3 l4 l5 : list ascii) :
  splitLines markdown = pre ++ [l1; l2; l3; l4; l5] ++ post ->
  menuRunThenPlain l1 l2 l3 l4 l5 ->
  hasNavigationKeyword (trim l1) = false ->
  Forall (fun l => isMenuSectionHeader (trim l) = false) [l1; l2; l3; l4] ->
  exists kept kept',
    sublist kept pre /\ sublist kept' post
    /\ scan (splitLines markdown) 0 [] = kept ++ l5 :: kept'
    /\ removeNavigationMenus markdown
       = trim (collapseBlankRuns (joinLines (kept ++ l5 :: kept'))).
Proof.
  intros Hsplit Hrun Hkw1 Hhdrs.
  destruct (scan_prefix pre ([l1; l2; l3; l4; l5] ++ post) 0 [])
    as (m & kept & Hkept & Hpre).
  destruct (scan_all post 0 (kept ++ [l5])) as (kept' & Hkept' & Hpost).
  assert (Hscan : scan (splitLines markdown) 0 [] = kept ++ l5 :: kept').
  { rewrite Hsplit, Hpre. cbn [app].
    rewrite (scan_menu_run l1 l2 l3 l4 l5 post m kept Hrun Hkw1 Hhdrs).
    rewrite Hpost, <- app_assoc. reflexivity. }
  exists kept, kept'. split; [assumption|]. split; [assumption|].
  split; [exact Hscan|].
  unfold removeNavigationMenus. cbv zeta. rewrite Hscan. reflexivity.
Qed.

Lemma C7_menu_run_dropped_witness :
  exists kept kept',
    sublist kept [lit "# Title"] /\ sublist kept' [lit "More text."]
    /\ scan (splitLines
               (joinLines
                  (map lit ["# Title"; "- [logo](/)"; "- Navigate to home";
                            "- Docs"; "- Blog"; "Welcome."; "More text."]%string)))
         0 []
       = kept ++ lit "Welcome." :: kept'
    /\ removeNavigationMenus
         (joinLines
            (map lit ["# Title"; "- [logo](/)"; "- Navigate to home";
                      "- Docs"; "- Blog"; "Welcome."; "More text."]%string))
       = trim (collapseBlankRuns (joinLines (kept ++ lit "Welcome." :: kept'))).
Proof.
  apply (C7_menu_run_dropped _ [lit "# Title"] [lit "More text."]
           (lit "- [logo](/)") (lit "- Navigate to home") (lit "- Docs")
           (lit "- Blog") (lit "Welcome.")).
  - vm_compute. reflexivity.
  - unfold menuRunThenPlain. split; [repeat constructor|].
    repeat split; try (vm_compute; reflexivity). vm_compute. lia.
  - vm_compute. reflexivity.
  - repeat constructor.
Defined.

(** C7, counterexample: the first dash line carries the two phrases and
    also the chrome phrase "learn more".  It is dropped by the phrase rule
    before the menu test is reached, the scanner stays in normal mode, and
    the three dash lines behind it are retained. *)
Lemma C7_counterexample :
  let markdown :=
    joinLines (map lit ["- Logo: navigate to home, learn more"; "- a"; "- b";
                        "- c"; "plain"]%string) in
  menuRunThenPlain (lit "- Logo: navigate to home, learn more") (lit "- a")
    (lit "- b") (lit "- c") (lit "plain")
  /\ removeNavigationMenus markdown
     = joinLines (map lit ["- a"; "- b"; "- c"; "plain"]%string)
  /\ ~ C7_as_stated.
Proof.
  cbv zeta.
  assert (Hrun : menuRunThenPlain (lit "- Logo: navigate to home, learn more")
                   (lit "- a") (lit "- b") (lit "- c") (lit "plain")).
  { unfold menuRunThenPlain. split; [repeat constructor|].
    repeat split; try (vm_compute; reflexivity). vm_compute. lia. }
  split; [exact Hrun|]. split; [vm_compute; reflexivity|].
  intros H.
  destruct (H (joinLines (map lit ["- Logo: navigate to home, learn more";
                                   "- a"; "- b"; "- c"; "plain"]%string))
              [] []
              (lit "- Logo: navigate to home, learn more")
              (lit "- a") (lit "- b") (lit "- c") (lit "plain"))
    as (kept & kept' & Hk & Hk' & Hscan).
  - vm_compute. reflexivity.
  - exact Hrun.
  - apply sublist_nil_r in Hk. apply sublist_nil_r in Hk'. subst.
    vm_compute in Hscan. discriminate.
Qed.

(* ----------------------------------------------------------------- *)
(** ** Replacements that find nothing to replace *)

Lemma isChar_eq (a x : ascii) : isChar a x = true -> x = a.
Proof. unfold isChar. apply Ascii.eqb_eq. Qed.

Lemma isCI_lt (x : ascii) : isCI (ch "<") x = true -> x = ch "<".
Proof.
  destruct x as [b0 b1 b2 b3 b4 b5 b6 b7].
  destruct b0, b1, b2, b3, b4, b5, b6, b7; vm_compute; intros H;
    first [reflexivity | discriminate H].
Qed.

Lemma needsHead_Chr (p : ascii -> bool) : needsHead p (Chr p).
Proof.
  intros k st H. cbn [rmatch]. destruct (ahead st) as [|x s']; [reflexivity|].
  rewrite H. reflexivity.
Qed.

Lemma needsHead_Seq (p : ascii -> bool) (r1 r2 : regex) :
  needsHead p r1 -> needsHead p (Seq r1 r2).
Proof. intros H1 k st H. cbn [rmatch]. apply H1, H. Qed.

Lemma replaceFrom_needsHead (p : ascii -> bool) (r : regex)
    (f : list ascii -> (nat -> option (list ascii)) -> list ascii) :
  needsHead p r ->
  forall fuel st,
    Forall (fun x => p x = false) (ahead st) ->
    replaceFrom r f fuel st = ahead st.
Proof.
  intros Hr. induction fuel as [|fuel IH]; intros st Hall; [reflexivity|].
  cbn [replaceFrom]. unfold matchHere.
  rewrite Hr by (cbn [ahead]; destruct Hall; [exact I|assumption]).
  destruct st as [bef ahd cps]. cbn [ahead] in *.
  destruct Hall as [|x ahd' Hx Hall]; [reflexivity|].
  cbn [step ahead before caps]. rewrite IH by exact Hall. reflexivity.
Qed.

(** A pattern that has to start with [<] leaves a text without [<] alone. *)
Lemma replaceAll_noMarkup (p : ascii -> bool) (r : regex)
    (f : list ascii -> (nat -> option (list ascii)) -> list ascii)
    (s : list ascii) :
  needsHead p r ->
  (forall x, p x = true -> x = ch "<") ->
  noMarkup s ->
  replaceAll r f s = s.
Proof.
  intros Hr Hp Hs. unfold replaceAll.
  rewrite (replaceFrom_needsHead p r f Hr); [reflexivity|].
  cbn [start ahead]. unfold noMarkup in Hs.
  eapply Forall_impl; [exact Hs|]. intros x Hx. cbn beta in Hx.
  destruct (p x) eqn:E; [|reflexivity]. elim Hx. apply Hp, E.
Qed.

Ltac head_is_lt :=
  cbn; repeat apply needsHead_Seq; apply needsHead_Chr.

Lemma needsHead_reTermAndDesc : needsHead (isCI (ch "<")) reTermAndDesc.
Proof. head_is_lt. Qed.

Lemma needsHead_reTerm : needsHead (isCI (ch "<")) reTerm.
Proof. head_is_lt. Qed.

Lemma needsHead_reDesc : needsHead (isCI (ch "<")) reDesc.
Proof. head_is_lt. Qed.

Lemma needsHead_reDlTag : needsHead (isCI (ch "<")) reDlTag.
Proof. head_is_lt. Qed.

Lemma needsHead_reElement (tag : string) :
  needsHead (isCI (ch "<")) (reElement tag).
Proof.
  unfold reElement. cbn [seqs]. apply needsHead_Seq. cbn. apply needsHead_Chr.
Qed.

Lemma needsHead_selfClosing :
  Forall (needsHead (isCI (ch "<"))) selfClosingTags.
Proof. unfold selfClosingTags. repeat constructor; head_is_lt. Qed.

Lemma needsHead_reOtherTag : needsHead (isChar (ch "<")) reOtherTag.
Proof. head_is_lt. Qed.

Lemma stripRemainingHtml_noMarkup (s : list ascii) :
  noMarkup s -> stripRemainingHtml s = s.
Proof.
  intros Hs. unfold stripRemainingHtml. cbv zeta.
  assert (H1 : fold_left
                 (fun acc tag => replaceAll (reElement tag) (constant []) acc)
                 tagsToRemove s = s).
  { generalize tagsToRemove. intros tags.
    induction tags as [|tag tags IH]; [reflexivity|]. cbn [fold_left].
    rewrite (replaceAll_noMarkup _ _ _ s (needsHead_reElement tag) isCI_lt Hs).
    exact IH. }
  rewrite H1.
  assert (H2 : fold_left (fun acc re => replaceAll re (constant []) acc)
                 selfClosingTags s = s).
  { pose proof needsHead_selfClosing as Hall. revert Hall.
    generalize selfClosingTags. intros res Hall.
    induction Hall as [|re res Hre _ IH]; [reflexivity|]. cbn [fold_left].
    rewrite (replaceAll_noMarkup _ _ _ s Hre isCI_lt Hs). exact IH. }
  rewrite H2.
  apply (replaceAll_noMarkup _ _ _ s needsHead_reOtherTag); [|exact Hs].
  intros x. apply isChar_eq.
Qed.

(** The pattern [\n:\s*\n] needs a line feed followed by a colon. *)
Lemma reEmptyDesc_needs (k : mstate -> option mstate) (st : mstate) :
  match ahead st with
  | c1 :: c2 :: _ => Ascii.eqb c1 LF && Ascii.eqb c2 (ch ":") = false
  | _ => True
  end ->
  rmatch reEmptyDesc k st = None.
Proof.
  intros H. unfold reEmptyDesc. cbn [seqs rmatch c].
  destruct (ahead st) as [|c1 [|c2 rest]]; [reflexivity| |].
  - unfold isChar. destruct (Ascii.eqb c1 LF); reflexivity.
  - unfold isChar. cbn [ahead].
    destruct (Ascii.eqb c1 LF); [|reflexivity].
    cbn [andb] in H. rewrite H. reflexivity.
Qed.

Lemma replaceFrom_reEmptyDesc
    (f : list ascii -> (nat -> option (list ascii)) -> list ascii) :
  forall fuel st,
    colonAfterLF (ahead st) = false ->
    replaceFrom reEmptyDesc f fuel st = ahead st.
Proof.
  induction fuel as [|fuel IH]; intros st Hno; [reflexivity|].
  cbn [replaceFrom]. unfold matchHere.
  destruct st as [bef ahd cps]. cbn [ahead before caps] in *.
  rewrite reEmptyDesc_needs.
  - destruct ahd as [|c1 s1]; [reflexivity|].
    cbn [step ahead before caps]. rewrite IH; [reflexivity|].
    cbn [ahead]. destruct s1 as [|c2 s2]; [reflexivity|].
    cbn [colonAfterLF] in Hno. apply orb_false_iff in Hno as [_ Hno]. exact Hno.
  - cbn [ahead]. destruct ahd as [|c1 [|c2 s2]]; [exact I|exact I|].
    cbn [colonAfterLF] in Hno. apply orb_false_iff in Hno as [Hno _]. exact Hno.
Qed.

Lemma convertDefinitionLists_plain (s : list ascii) :
  noMarkup s -> colonAfterLF s = false -> convertDefinitionLists s = s.
Proof.
  intros Hs Hc. unfold convertDefinitionLists. cbv zeta.
  rewrite (replaceAll_noMarkup _ _ _ s needsHead_reTermAndDesc isCI_lt Hs).
  rewrite (replaceAll_noMarkup _ _ _ s needsHead_reTerm isCI_lt Hs).
  rewrite (replaceAll_noMarkup _ _ _ s needsHead_reDesc isCI_lt Hs).
  rewrite (replaceAll_noMarkup _ _ _ s needsHead_reDlTag isCI_lt Hs).
  unfold replaceAll. apply replaceFrom_reEmptyDesc. exact Hc.
Qed.

(* ----------------------------------------------------------------- *)
(** ** Collapsing runs of line feeds *)

Lemma skipWhile_snd (p : ascii -> bool) (ahd : list ascii) :
  forall bef, snd (skipWhile p bef ahd) = dropWhile p ahd.
Proof.
  induction ahd as [|x ahd IH]; intros bef; cbn; [reflexivity|].
  destruct (p x); [apply IH|reflexivity].
Qed.

Lemma dropWhile_length (p : ascii -> bool) (s : list ascii) :
  length (dropWhile p s) <= length s.
Proof.
  induction s as [|x s IH]; cbn; [lia|]. destruct (p x); cbn; lia.
Qed.

(** A greedy star over a single-character test consumes the longest run. *)
Lemma repeatMatch_chars (p : ascii -> bool) :
  forall n bef ahd cps,
    length ahd <= n ->
    repeatMatch (rmatch (Chr p)) true Some n (MState bef ahd cps)
    = Some (MState (fst (skipWhile p bef ahd)) (snd (skipWhile p bef ahd)) cps).
Proof.
  induction n as [|n IH]; intros bef ahd cps Hlen.
  - destruct ahd; [reflexivity|cbn in Hlen; lia].
  - cbn [repeatMatch rmatch ahead before caps].
    destruct ahd as [|x ahd]; [reflexivity|].
    cbn [skipWhile]. destruct (p x); [|reflexivity].
    cbn [ahead length].
    destruct (Nat.ltb_spec (length ahd) (S (length ahd))) as [_|?]; [|lia].
    rewrite IH by (cbn in Hlen; lia). reflexivity.
Qed.

Lemma matchHere_reBlankRun (st : mstate) :
  matchHere reBlankRun st =
  match ahead st with
  | c1 :: c2 :: c3 :: rest =>
      if Ascii.eqb c1 LF && Ascii.eqb c2 LF && Ascii.eqb c3 LF
      then Some (MState
                   (fst (skipWhile (isChar LF) (c3 :: c2 :: c1 :: before st) rest))
                   (dropWhile (isChar LF) rest) noCaps)
      else None
  | _ => None
  end.
Proof.
  unfold matchHere, reBlankRun, star. cbn [seqs rmatch ahead before caps].
  unfold isChar at 1.
  destruct (ahead st) as [|c1 [|c2 [|c3 rest]]]; try reflexivity;
    destruct (Ascii.eqb c1 LF); try reflexivity; cbn [ahead before caps andb];
    unfold isChar at 1;
    try (destruct (Ascii.eqb c2 LF); reflexivity).
  destruct (Ascii.eqb c2 LF); [|reflexivity]. cbn [ahead before caps andb].
  unfold isChar at 1.
  destruct (Ascii.eqb c3 LF); [|reflexivity]. cbn [ahead before caps].
  refine (eq_trans (repeatMatch_chars (isChar LF) _ _ _ _ _) _); [lia|].
  rewrite skipWhile_snd. reflexivity.
Qed.

(** The generic replacement with [/\n{3,}/g] is the direct recursion. *)
Lemma replaceFrom_reBlankRun :
  forall fuel st,
    replaceFrom reBlankRun (constant [LF; LF]) fuel st
    = collapseRuns fuel (ahead st).
Proof.
  induction fuel as [|fuel IH]; intros st; [reflexivity|].
  cbn [replaceFrom collapseRuns]. rewrite matchHere_reBlankRun.
  destruct st as [bef ahd cps]. cbn [ahead before caps step].
  destruct ahd as [|c1 [|c2 [|c3 rest]]]; try reflexivity.
  - cbn [ahead]. rewrite IH. cbn. rewrite andb_false_r. reflexivity.
  - cbn [ahead]. rewrite IH. cbn. rewrite !andb_false_r. reflexivity.
  - cbn [startsWith LF3]. rewrite andb_true_r, andb_assoc.
    destruct (Ascii.eqb c1 LF && Ascii.eqb c2 LF && Ascii.eqb c3 LF) eqn:E.
    + cbn [ahead constant app length].
      pose proof (dropWhile_length (isChar LF) rest) as Hle.
      destruct (Nat.ltb_spec (length (dropWhile (isChar LF) rest))
                  (S (S (S (length rest))))) as [_|?]; [|lia].
      rewrite IH. cbn [ahead].
      apply andb_true_iff in E as [E E3]. apply andb_true_iff in E as [E1 E2].
      assert (Hd : dropWhile (isChar LF) (c2 :: c3 :: rest)
                   = dropWhile (isChar LF) rest)
        by (cbn [dropWhile]; unfold isChar; rewrite E2, E3; reflexivity).
      rewrite Hd. reflexivity.
    + rewrite IH. reflexivity.
Qed.

Lemma collapseBlankRuns_eq (s : list ascii) :
  collapseBlankRuns s = collapseRuns (S (length s)) s.
Proof. unfold collapseBlankRuns, replaceAll. apply replaceFrom_reBlankRun. Qed.

Lemma startsWith_LF3_lead (s : list ascii) :
  startsWith s LF3 = (3 <=? lead s).
Proof.
  destruct s as [|c1 [|c2 [|c3 rest]]]; cbn; try reflexivity;
    repeat match goal with
           | |- context [Ascii.eqb ?x LF] => destruct (Ascii.eqb x LF)
           end; reflexivity.
Qed.

Lemma noTriple_LF (s : list ascii) :
  noTriple (LF :: s) = (lead s <? 2) && noTriple s.
Proof.
  destruct s as [|c2 [|c3 rest]]; cbn [noTriple lead]; try reflexivity.
  - destruct (Ascii.eqb c2 LF); reflexivity.
  - rewrite Ascii.eqb_refl.
    destruct (Ascii.eqb c2 LF), (Ascii.eqb c3 LF); reflexivity.
Qed.

Lemma noTriple_cons_other (x : ascii) (s : list ascii) :
  x <> LF -> noTriple (x :: s) = noTriple s.
Proof.
  intros Hx. destruct s as [|c2 [|c3 rest]]; try reflexivity.
  cbn [noTriple]. destruct (Ascii.eqb_spec x LF); [contradiction|]. reflexivity.
Qed.

Lemma noTriple_tail (x : ascii) (s : list ascii) :
  noTriple (x :: s) = true -> noTriple s = true.
Proof.
  destruct (Ascii.eqb_spec x LF) as [->|Hx].
  - rewrite noTriple_LF. intros H. apply andb_true_iff in H as [_ H]. exact H.
  - rewrite noTriple_cons_other by assumption. tauto.
Qed.

Lemma lead_dropWhile (s : list ascii) : lead (dropWhile (isChar LF) s) = 0.
Proof.
  induction s as [|x s IH]; [reflexivity|]. cbn [dropWhile]. unfold isChar at 1.
  destruct (Ascii.eqb x LF) eqn:E; [exact IH|]. cbn [lead]. rewrite E. reflexivity.
Qed.

(** Text without three line feeds in a row is left as it is. *)
Lemma collapseRuns_fixed :
  forall fuel s, noTriple s = true -> collapseRuns fuel s = s.
Proof.
  induction fuel as [|fuel IH]; intros s H; [reflexivity|].
  destruct s as [|c1 s1]; [reflexivity|]. cbn [collapseRuns].
  rewrite startsWith_LF3_lead.
  destruct (Nat.leb_spec 3 (lead (c1 :: s1))) as [Hge|Hlt].
  - exfalso. cbn [lead] in Hge.
    destruct (Ascii.eqb_spec c1 LF) as [->|]; [|lia].
    rewrite noTriple_LF in H. apply andb_true_iff in H as [H _].
    apply Nat.ltb_lt in H. lia.
  - rewrite IH; [reflexivity|]. eapply noTriple_tail, H.
Qed.

(** After the pass no three line feeds stand in a row, and the output
    starts with as many line feeds as the input, up to two. *)
Lemma collapseRuns_shape :
  forall fuel s,
    length s < fuel ->
    noTriple (collapseRuns fuel s) = true
    /\ lead (collapseRuns fuel s) = Nat.min 2 (lead s).
Proof.
  induction fuel as [|fuel IH]; intros s Hlen; [lia|].
  destruct s as [|c1 s1]; [split; reflexivity|].
  cbn [length] in Hlen. cbn [collapseRuns].
  rewrite startsWith_LF3_lead.
  destruct (Nat.leb_spec 3 (lead (c1 :: s1))) as [Hge|Hlt].
  - pose proof (dropWhile_length (isChar LF) s1) as Hle.
    destruct (IH (dropWhile (isChar LF) s1)) as [Hn Hl]; [lia|].
    rewrite lead_dropWhile in Hl. cbn [Nat.min] in Hl.
    split.
    + rewrite !noTriple_LF. cbn [lead]. rewrite Ascii.eqb_refl, Hl, Hn. reflexivity.
    + cbn [lead] in Hge |- *. rewrite !Ascii.eqb_refl, Hl.
      destruct (Ascii.eqb c1 LF); lia.
  - destruct (IH s1) as [Hn Hl]; [lia|].
    cbn [lead] in Hlt |- *.
    destruct (Ascii.eqb_spec c1 LF) as [->|Hne].
    + rewrite noTriple_LF, Hn, Hl. split; [|lia].
      rewrite andb_true_r. apply Nat.ltb_lt. lia.
    + rewrite noTriple_cons_other by assumption. split; [exact Hn|reflexivity].
Qed.

Lemma collapseBlankRuns_noTriple (s : list ascii) :
  noTriple (collapseBlankRuns s) = true.
Proof. rewrite collapseBlankRuns_eq. apply collapseRuns_shape. lia. Qed.

Lemma collapseBlankRuns_fixed (s : list ascii) :
  noTriple s = true -> collapseBlankRuns s = s.
Proof. intros H. rewrite collapseBlankRuns_eq. apply collapseRuns_fixed, H. Qed.

(* ----------------------------------------------------------------- *)
(** ** Trimming *)

Lemma dropWhile_app (p : ascii -> bool) (a b : list ascii) :
  dropWhile p (a ++ b)
  = match dropWhile p a with
    | [] => dropWhile p b
    | x :: d => (x :: d) ++ b
    end.
Proof.
  induction a as [|y a IH]; cbn [app dropWhile]; [destruct (dropWhile p b); reflexivity|].
  destruct (p y); [exact IH|reflexivity].
Qed.

Lemma dropWhile_idem (p : ascii -> bool) (s : list ascii) :
  dropWhile p (dropWhile p s) = dropWhile p s.
Proof.
  induction s as [|x s IH]; [reflexivity|]. cbn [dropWhile].
  destruct (p x) eqn:E; [exact IH|]. cbn [dropWhile]. rewrite E. reflexivity.
Qed.

Lemma dropWhile_all (p : ascii -> bool) (s : list ascii) :
  Forall (fun x => p x = true) s -> dropWhile p s = [].
Proof.
  induction 1 as [|x s Hx _ IH]; [reflexivity|]. cbn. rewrite Hx. exact IH.
Qed.

(** What [dropWhile] drops passes the test. *)
Lemma dropWhile_split (p : ascii -> bool) (s : list ascii) :
  exists a, s = a ++ dropWhile p s /\ Forall (fun x => p x = true) a.
Proof.
  induction s as [|x s (a & Ha & Hall)]; [exists []; split; [reflexivity|constructor]|].
  cbn [dropWhile]. destruct (p x) eqn:E.
  - exists (x :: a). split; [cbn; congruence|constructor; assumption].
  - exists []. split; [reflexivity|constructor].
Qed.

Lemma trimEnd_split (s : list ascii) :
  exists w, s = trimEnd s ++ w /\ Forall (fun x => isWhiteSpace x = true) w.
Proof.
  destruct (dropWhile_split isWhiteSpace (rev s)) as (a & Ha & Hall).
  exists (rev a). split.
  - unfold trimEnd. rewrite <- rev_app_distr, <- Ha, rev_involutive. reflexivity.
  - apply Forall_rev. exact Hall.
Qed.

Lemma trimEnd_snoc_solid (l : list ascii) (d : ascii) :
  isWhiteSpace d = false -> trimEnd (l ++ [d]) = l ++ [d].
Proof.
  intros Hd. unfold trimEnd. rewrite rev_app_distr. cbn [rev app dropWhile].
  rewrite Hd. cbn [rev]. rewrite rev_involutive. reflexivity.
Qed.

Lemma trimEnd_snoc_ws (l : list ascii) (w : ascii) :
  isWhiteSpace w = true -> trimEnd (l ++ [w]) = trimEnd l.
Proof.
  intros Hw. unfold trimEnd. rewrite rev_app_distr. cbn [rev app dropWhile].
  rewrite Hw. reflexivity.
Qed.

Lemma trimEnd_app_ws (a w : list ascii) :
  Forall (fun x => isWhiteSpace x = true) w -> trimEnd (a ++ w) = trimEnd a.
Proof.
  induction w as [|x w IH] using rev_ind; intros Hall.
  - rewrite app_nil_r. reflexivity.
  - apply Forall_app in Hall as [Hw Hx]. inversion Hx; subst.
    rewrite app_assoc, trimEnd_snoc_ws by assumption. apply IH, Hw.
Qed.

Lemma trimEnd_cons_solid (x : ascii) (l : list ascii) :
  isWhiteSpace x = false -> trimEnd (x :: l) = x :: trimEnd l.
Proof.
  intros Hx. unfold trimEnd. cbn [rev]. rewrite dropWhile_app.
  destruct (dropWhile isWhiteSpace (rev l)) as [|y d].
  - cbn [dropWhile]. rewrite Hx. reflexivity.
  - rewrite rev_app_distr. reflexivity.
Qed.

Lemma trimEnd_idem (s : list ascii) : trimEnd (trimEnd s) = trimEnd s.
Proof.
  unfold trimEnd. rewrite rev_involutive, dropWhile_idem. reflexivity.
Qed.

Lemma trimEnd_nil_all (s : list ascii) :
  trimEnd s = [] -> Forall (fun x => isWhiteSpace x = true) s.
Proof.
  intros H. destruct (trimEnd_split s) as (w & Hs & Hall).
  rewrite H in Hs. cbn in Hs. subst. exact Hall.
Qed.

Lemma trim_cons_ws (x : ascii) (l : list ascii) :
  isWhiteSpace x = true -> trim (x :: l) = trim l.
Proof. intros Hx. unfold trim, trimStart. cbn [dropWhile]. rewrite Hx. reflexivity. Qed.

Lemma trim_snoc_ws (l : list ascii) (x : ascii) :
  isWhiteSpace x = true -> trim (l ++ [x]) = trim l.
Proof.
  intros Hx. unfold trim, trimStart. rewrite dropWhile_app.
  destruct (dropWhile isWhiteSpace l) as [|y d].
  - cbn [dropWhile]. rewrite Hx. reflexivity.
  - apply (trimEnd_snoc_ws (y :: d)). exact Hx.
Qed.

Lemma trim_app_ws (a w : list ascii) :
  Forall (fun x => isWhiteSpace x = true) w -> trim (a ++ w) = trim a.
Proof.
  induction w as [|x w IH] using rev_ind; intros Hall.
  - rewrite app_nil_r. reflexivity.
  - apply Forall_app in Hall as [Hw Hx]. inversion Hx; subst.
    rewrite app_assoc, trim_snoc_ws by assumption. apply IH, Hw.
Qed.

Lemma trim_trimEnd (l : list ascii) : trim (trimEnd l) = trim l.
Proof.
  destruct (trimEnd_split l) as (w & Hl & Hall).
  rewrite Hl at 2. rewrite trim_app_ws by assumption. reflexivity.
Qed.

Lemma trim_all_ws (l : list ascii) :
  Forall (fun x => isWhiteSpace x = true) l -> trim l = [].
Proof.
  intros H. unfold trim, trimStart. rewrite dropWhile_all by assumption. reflexivity.
Qed.

Lemma headSolid_dropWhile (s : list ascii) : headSolid (dropWhile isWhiteSpace s).
Proof.
  induction s as [|x s IH]; cbn [dropWhile]; [exact I|].
  destruct (isWhiteSpace x) eqn:E; [exact IH|exact E].
Qed.

Lemma trimStart_fixed (s : list ascii) : headSolid s -> trimStart s = s.
Proof.
  destruct s as [|x s]; [reflexivity|]. cbn. intros H. unfold trimStart.
  cbn [dropWhile]. rewrite H. reflexivity.
Qed.

Lemma trimEnd_fixed (s : list ascii) : lastSolid s -> trimEnd s = s.
Proof.
  unfold lastSolid, trimEnd. intros H.
  change (dropWhile isWhiteSpace (rev s)) with (trimStart (rev s)).
  rewrite trimStart_fixed by assumption. apply rev_involutive.
Qed.

Lemma headSolid_trimEnd (s : list ascii) : headSolid s -> headSolid (trimEnd s).
Proof.
  destruct s as [|x s]; [intros _; exact I|]. cbn [headSolid]. intros H.
  rewrite trimEnd_cons_solid by assumption. exact H.
Qed.

Lemma headSolid_trim (s : list ascii) : headSolid (trim s).
Proof. apply headSolid_trimEnd, headSolid_dropWhile. Qed.

Lemma lastSolid_trimEnd (s : list ascii) : lastSolid (trimEnd s).
Proof.
  unfold lastSolid, trimEnd. rewrite rev_involutive. apply headSolid_dropWhile.
Qed.

Lemma lastSolid_trim (s : list ascii) : lastSolid (trim s).
Proof. apply lastSolid_trimEnd. Qed.

Lemma trim_fixed (s : list ascii) : headSolid s -> lastSolid s -> trim s = s.
Proof.
  intros Hh Hl. unfold trim. rewrite trimStart_fixed by assumption.
  apply trimEnd_fixed, Hl.
Qed.

(* ----------------------------------------------------------------- *)
(** ** How the white-space passes act on lines *)

Lemma Forall_sublist {A : Type} (P : A -> Prop) (l1 l2 : list A) :
  sublist l1 l2 -> Forall P l2 -> Forall P l1.
Proof.
  induction 1 as [|x l1 l2 _ IH|x l1 l2 _ IH]; intros H.
  - constructor.
  - inversion H; subst. constructor; [assumption|apply IH; assumption].
  - inversion H; subst. apply IH; assumption.
Qed.

Lemma snocToLast_cons (l : list ascii) (ls : list (list ascii)) (x : ascii) :
  ls <> [] -> snocToLast (l :: ls) x = l :: snocToLast ls x.
Proof. destruct ls; [congruence|reflexivity]. Qed.

Lemma splitLines_snoc (s : list ascii) (x : ascii) :
  splitLines (s ++ [x])
  = if Ascii.eqb x LF then splitLines s ++ [[]]
    else snocToLast (splitLines s) x.
Proof.
  induction s as [|y s IH].
  - cbn. destruct (Ascii.eqb x LF); reflexivity.
  - cbn [app splitLines]. rewrite IH.
    pose proof (splitLines_nonempty s) as Hne.
    destruct (Ascii.eqb y LF), (Ascii.eqb x LF).
    + reflexivity.
    + rewrite snocToLast_cons by assumption. reflexivity.
    + destruct (splitLines s); [congruence|reflexivity].
    + destruct (splitLines s) as [|l [|l' ls]]; [congruence|reflexivity|reflexivity].
Qed.

Lemma Forall_snocToLast (Q : list ascii -> Prop) (x : ascii)
    (ls : list (list ascii)) :
  (forall l, Q (l ++ [x]) -> Q l) ->
  ls <> [] ->
  Forall Q (snocToLast ls x) -> Forall Q ls.
Proof.
  intros HQ. induction ls as [|l ls IH]; [congruence|]. intros _ H.
  destruct ls as [|l' ls'].
  - cbn in H. inversion H; subst. constructor; [apply HQ; assumption|constructor].
  - rewrite snocToLast_cons in H by discriminate. inversion H; subst.
    constructor; [assumption|]. apply IH; [discriminate|assumption].
Qed.

Section LineProperty.
Variable Q : list ascii -> Prop.
Hypothesis Q_front :
  forall x l, isWhiteSpace x = true -> Q (x :: l) -> Q l.
Hypothesis Q_back :
  forall x l, isWhiteSpace x = true -> Q (l ++ [x]) -> Q l.

Lemma lines_trimStart (s : list ascii) :
  Forall Q (splitLines s) -> Forall Q (splitLines (trimStart s)).
Proof using Q_front.
  unfold trimStart. induction s as [|x s IH]; intros H; [exact H|].
  cbn [dropWhile]. destruct (isWhiteSpace x) eqn:Hx; [|exact H].
  apply IH. cbn [splitLines] in H.
  destruct (Ascii.eqb x LF).
  - inversion H; subst. assumption.
  - pose proof (splitLines_nonempty s) as Hne.
    destruct (splitLines s) as [|l ls]; [congruence|].
    inversion H; subst. constructor; [|assumption].
    apply (Q_front x); assumption.
Qed.

Lemma lines_drop_blank_suffix (w : list ascii) :
  Forall (fun x => isWhiteSpace x = true) w ->
  forall a, Forall Q (splitLines (a ++ w)) -> Forall Q (splitLines a).
Proof using Q_back.
  induction w as [|x w IH] using rev_ind; intros Hall a H.
  - rewrite app_nil_r in H. exact H.
  - apply Forall_app in Hall as [Hw Hx]. inversion Hx as [|? ? Hx' _]; subst.
    apply IH; [exact Hw|].
    rewrite app_assoc, splitLines_snoc in H.
    destruct (Ascii.eqb x LF).
    + apply Forall_app in H as [H _]. exact H.
    + eapply Forall_snocToLast; [|apply splitLines_nonempty|exact H].
      intros l. apply Q_back. exact Hx'.
Qed.

Lemma lines_trimEnd (s : list ascii) :
  Forall Q (splitLines s) -> Forall Q (splitLines (trimEnd s)).
Proof using Q_back.
  intros H. destruct (trimEnd_split s) as (w & Hs & Hall).
  apply (lines_drop_blank_suffix w Hall). rewrite <- Hs. exact H.
Qed.

Lemma lines_trim (s : list ascii) :
  Forall Q (splitLines s) -> Forall Q (splitLines (trim s)).
Proof using Q_front Q_back.
  intros H. unfold trim. apply lines_trimEnd, lines_trimStart, H.
Qed.

End LineProperty.

Lemma splitLines_lead (s : list ascii) :
  splitLines s = repeat [] (lead s) ++ splitLines (dropWhile (isChar LF) s).
Proof.
  induction s as [|x s IH]; [reflexivity|].
  cbn [lead dropWhile]. unfold isChar at 1.
  destruct (Ascii.eqb x LF) eqn:E; [|reflexivity].
  cbn [splitLines]. rewrite E. cbn [repeat app]. rewrite <- IH. reflexivity.
Qed.

(** Collapsing keeps the first line and deletes lines behind it. *)
Lemma collapseRuns_lines :
  forall fuel s,
    exists hd tl tl',
      splitLines s = hd :: tl
      /\ splitLines (collapseRuns fuel s) = hd :: tl'
      /\ sublist tl' tl.
Proof.
  induction fuel as [|fuel IH]; intros s.
  - pose proof (splitLines_nonempty s) as Hne.
    destruct (splitLines s) as [|hd tl] eqn:E; [congruence|].
    exists hd, tl, tl. cbn [collapseRuns]. rewrite E. repeat split; reflexivity.
  - destruct s as [|c1 s1]; [exists [], [], []; repeat split; reflexivity|].
    cbn [collapseRuns]. rewrite startsWith_LF3_lead.
    destruct (Nat.leb_spec 3 (lead (c1 :: s1))) as [Hge|Hlt].
    + cbn [lead] in Hge.
      destruct (Ascii.eqb_spec c1 LF) as [->|]; [|lia].
      destruct (IH (dropWhile (isChar LF) s1)) as (hd & tl & tl' & Hd & Hc & Hsub).
      destruct (lead s1) as [|k] eqn:Hk; [lia|].
      exists [], (repeat [] (S k) ++ hd :: tl), ([] :: hd :: tl').
      split; [|split].
      * cbn [splitLines]. rewrite Ascii.eqb_refl.
        rewrite (splitLines_lead s1), Hk, Hd. reflexivity.
      * cbn [splitLines]. rewrite !Ascii.eqb_refl, Hc. reflexivity.
      * cbn [repeat app]. apply sublist_skip || apply sublist_cons.
        apply sublist_inserts_l. constructor. exact Hsub.
    + destruct (IH s1) as (hd & tl & tl' & Hd & Hc & Hsub).
      cbn [splitLines]. rewrite Hd, Hc.
      destruct (Ascii.eqb c1 LF).
      * exists [], (hd :: tl), (hd :: tl'). repeat split. constructor. exact Hsub.
      * exists (c1 :: hd), tl, tl'. repeat split. exact Hsub.
Qed.

Lemma lines_collapseBlankRuns (Q : list ascii -> Prop) (s : list ascii) :
  Forall Q (splitLines s) -> Forall Q (splitLines (collapseBlankRuns s)).
Proof.
  intros H. rewrite collapseBlankRuns_eq.
  destruct (collapseRuns_lines (S (length s)) s) as (hd & tl & tl' & Hs & Hc & Hsub).
  rewrite Hs in H. rewrite Hc. inversion H; subst.
  constructor; [assumption|]. eapply Forall_sublist; eassumption.
Qed.

Lemma NoLF_trimEnd (l : list ascii) : NoLF l -> NoLF (trimEnd l).
Proof.
  intros H. destruct (trimEnd_split l) as (w & Hl & _).
  unfold NoLF in *. rewrite Hl in H. apply Forall_app in H as [H _]. exact H.
Qed.

Lemma splitLines_trimEndLines (s : list ascii) :
  splitLines (trimEndLines s) = map trimEnd (splitLines s).
Proof.
  unfold trimEndLines. apply splitLines_joinLines.
  - pose proof (splitLines_nonempty s). destruct (splitLines s); [congruence|discriminate].
  - apply Forall_map. eapply Forall_impl; [apply splitLines_NoLF|].
    intros l. apply NoLF_trimEnd.
Qed.

Lemma trimEndLines_idem (s : list ascii) :
  trimEndLines (trimEndLines s) = trimEndLines s.
Proof.
  unfold trimEndLines at 1. rewrite splitLines_trimEndLines, map_map.
  unfold trimEndLines. f_equal. apply map_ext. intros l. apply trimEnd_idem.
Qed.

Lemma cleanWhitespace_eq (s : list ascii) :
  cleanWhitespace s = trimEndLines (collapseBlankRuns s).
Proof. reflexivity. Qed.

(* ----------------------------------------------------------------- *)
(** ** Runs of line feeds and the ends of a text under the passes *)

Lemma lead_app_le (a b : list ascii) : lead a <= lead (a ++ b).
Proof.
  induction a as [|x a IH]; cbn [app lead]; [lia|].
  destruct (Ascii.eqb x LF); lia.
Qed.

Lemma lead_app_sep (a s : list ascii) (x : ascii) :
  x <> LF -> lead (a ++ x :: s) = lead a.
Proof.
  intros Hx. induction a as [|y a IH]; cbn [app lead].
  - destruct (Ascii.eqb_spec x LF); [contradiction|reflexivity].
  - rewrite IH. reflexivity.
Qed.

Lemma noTriple_app_r (a b : list ascii) :
  noTriple (a ++ b) = true -> noTriple b = true.
Proof.
  induction a as [|x a IH]; [tauto|]. intros H. apply IH.
  eapply noTriple_tail, H.
Qed.

Lemma noTriple_app_l (a b : list ascii) :
  noTriple (a ++ b) = true -> noTriple a = true.
Proof.
  induction a as [|x a IH]; [reflexivity|]. cbn [app].
  destruct (Ascii.eqb_spec x LF) as [->|Hx].
  - rewrite !noTriple_LF. intros H. apply andb_true_iff in H as [Hl Hn].
    apply andb_true_iff. split; [|apply IH, Hn].
    apply Nat.ltb_lt in Hl. apply Nat.ltb_lt.
    pose proof (lead_app_le a b). lia.
  - rewrite !noTriple_cons_other by assumption. exact IH.
Qed.

Lemma noTriple_trim (s : list ascii) : noTriple s = true -> noTriple (trim s) = true.
Proof.
  intros H. unfold trim.
  destruct (dropWhile_split isWhiteSpace s) as (a & Ha & _).
  destruct (trimEnd_split (trimStart s)) as (w & Hw & _).
  unfold trimStart in *. rewrite Ha in H. apply noTriple_app_r in H.
  rewrite Hw in H. apply noTriple_app_l in H. exact H.
Qed.

(** A code unit other than a line feed separates the runs around it. *)
Lemma noTriple_sep (p s : list ascii) (x : ascii) :
  x <> LF -> noTriple (p ++ x :: s) = noTriple p && noTriple s.
Proof.
  intros Hx. induction p as [|y p IH]; cbn [app].
  - rewrite noTriple_cons_other by assumption. reflexivity.
  - destruct (Ascii.eqb_spec y LF) as [->|Hy].
    + rewrite !noTriple_LF, IH, lead_app_sep by assumption.
      rewrite andb_assoc. reflexivity.
    + rewrite !noTriple_cons_other by assumption. exact IH.
Qed.

Lemma noTriple_NoLF_prefix (l s : list ascii) :
  NoLF l -> noTriple (l ++ s) = noTriple s.
Proof.
  induction 1 as [|x l Hx _ IH]; [reflexivity|]. cbn [app].
  rewrite noTriple_cons_other by assumption. exact IH.
Qed.

Lemma noTriple_line (p l s : list ascii) :
  NoLF l -> l <> [] -> noTriple (p ++ l ++ s) = noTriple p && noTriple s.
Proof.
  intros Hl Hne. destruct Hl as [|x l Hx Hl]; [congruence|].
  cbn [app]. rewrite noTriple_sep by assumption.
  rewrite noTriple_NoLF_prefix by assumption. reflexivity.
Qed.

(** Whether three line feeds stand in a row depends only on which lines
    are empty. *)
Lemma noTriple_same_blanks (ls ls' : list (list ascii)) :
  Forall2 (fun l l' => NoLF l /\ NoLF l' /\ (l = [] <-> l' = [])) ls ls' ->
  forall p, noTriple (p ++ joinLines ls) = noTriple (p ++ joinLines ls').
Proof.
  induction 1 as [|l l' ls ls' (Hl & Hl' & Hiff) Hrest IH]; intros p; [reflexivity|].
  destruct Hrest as [|l2 l2' r r' H2 Hrest].
  - cbn [joinLines].
    destruct l as [|x l].
    + rewrite (proj1 Hiff eq_refl). reflexivity.
    + assert (Hne' : l' <> []) by (intros E; apply Hiff in E; discriminate).
      rewrite <- (app_nil_r (x :: l)), <- (app_nil_r l').
      rewrite !noTriple_line by (assumption || discriminate). reflexivity.
  - rewrite (joinLines_cons l (l2 :: r)), (joinLines_cons l' (l2' :: r'))
      by discriminate.
    destruct l as [|x l].
    + rewrite (proj1 Hiff eq_refl). cbn [app].
      change (p ++ LF :: joinLines (l2 :: r)) with (p ++ [LF] ++ joinLines (l2 :: r)).
      change (p ++ LF :: joinLines (l2' :: r')) with (p ++ [LF] ++ joinLines (l2' :: r')).
      rewrite !app_assoc. apply IH.
    + assert (Hne' : l' <> []) by (intros E; apply Hiff in E; discriminate).
      rewrite !noTriple_line by (assumption || discriminate).
      f_equal. apply (IH [LF]).
Qed.

Lemma solidLine_trimEnd_nil (l : list ascii) :
  solidLine l -> trimEnd l = [] -> l = [].
Proof.
  intros [H|H] E; [assumption|]. exfalso. apply H.
  rewrite <- trim_trimEnd, E. reflexivity.
Qed.

Lemma noTriple_trimEndLines (s : list ascii) :
  Forall solidLine (splitLines s) ->
  noTriple (trimEndLines s) = noTriple s.
Proof.
  intros Hsolid. rewrite <- (joinLines_splitLines s) at 2.
  unfold trimEndLines. symmetry.
  apply (noTriple_same_blanks _ _) with (p := []).
  pose proof (splitLines_NoLF s) as Hno.
  induction (splitLines s) as [|l ls IH]; [constructor|].
  inversion Hsolid; subst. inversion Hno; subst.
  cbn [map]. constructor; [|apply IH; assumption].
  split; [assumption|]. split; [apply NoLF_trimEnd; assumption|].
  split; [intros ->; reflexivity|apply solidLine_trimEnd_nil; assumption].
Qed.

Lemma solid_not_LF (x : ascii) : isWhiteSpace x = false -> x <> LF.
Proof. intros H ->. vm_compute in H. discriminate. Qed.

Lemma joinLines_head (x : ascii) (l : list ascii) (ls : list (list ascii)) :
  joinLines ((x :: l) :: ls) = x :: joinLines (l :: ls).
Proof. destruct ls; reflexivity. Qed.

Lemma headSolid_trimEndLines (s : list ascii) :
  headSolid s -> headSolid (trimEndLines s).
Proof.
  destruct s as [|x s]; [intros _; exact I|]. cbn [headSolid]. intros Hx.
  unfold trimEndLines. cbn [splitLines].
  destruct (Ascii.eqb_spec x LF) as [E|_]; [apply solid_not_LF in Hx; contradiction|].
  pose proof (splitLines_nonempty s) as Hne.
  destruct (splitLines s) as [|l ls]; [congruence|].
  cbn [map]. rewrite trimEnd_cons_solid by assumption.
  rewrite joinLines_head. exact Hx.
Qed.

Lemma snocToLast_last (ls : list (list ascii)) (x : ascii) :
  ls <> [] ->
  exists init l, ls = init ++ [l] /\ snocToLast ls x = init ++ [l ++ [x]].
Proof.
  induction ls as [|l ls IH]; [congruence|]. intros _.
  destruct ls as [|l' ls'].
  - exists [], l. split; reflexivity.
  - destruct IH as (init & l0 & E & Es); [discriminate|].
    exists (l :: init), l0. rewrite snocToLast_cons by discriminate.
    rewrite Es, E. split; reflexivity.
Qed.

Lemma joinLines_snoc_last (A : list (list ascii)) (l : list ascii) (x : ascii) :
  joinLines (A ++ [l ++ [x]]) = joinLines (A ++ [l]) ++ [x].
Proof.
  induction A as [|a A IH]; [reflexivity|]. cbn [app].
  rewrite !joinLines_cons by (destruct A; discriminate).
  rewrite IH, <- app_assoc. reflexivity.
Qed.

Lemma lastSolid_trimEndLines (s : list ascii) :
  lastSolid s -> lastSolid (trimEndLines s).
Proof.
  unfold lastSolid. destruct s as [|y s'] using rev_ind; [intros _; exact I|].
  clear IHs'. rewrite rev_app_distr. cbn [rev app headSolid]. intros Hy.
  unfold trimEndLines. rewrite splitLines_snoc.
  destruct (Ascii.eqb_spec y LF) as [E|_]; [apply solid_not_LF in Hy; contradiction|].
  destruct (snocToLast_last (splitLines s') y (splitLines_nonempty s'))
    as (init & l & _ & ->).
  rewrite map_app. cbn [map]. rewrite trimEnd_snoc_solid by assumption.
  rewrite joinLines_snoc_last, rev_app_distr. exact Hy.
Qed.

(* ----------------------------------------------------------------- *)
(** ** Characters kept by the passes *)

Section CharProperty.
Variable P : ascii -> Prop.
Hypothesis P_LF : P LF.

Lemma Forall_dropWhile (p : ascii -> bool) (s : list ascii) :
  Forall P s -> Forall P (dropWhile p s).
Proof using Type.
  induction 1 as [|x s Hx Hs IH]; cbn [dropWhile]; [constructor|].
  destruct (p x); [exact IH|constructor; assumption].
Qed.

Lemma Forall_trimEnd (s : list ascii) : Forall P s -> Forall P (trimEnd s).
Proof using Type.
  intros H. unfold trimEnd. apply Forall_rev, Forall_dropWhile, Forall_rev, H.
Qed.

Lemma Forall_trim (s : list ascii) : Forall P s -> Forall P (trim s).
Proof using Type.
  intros H. unfold trim, trimStart. apply Forall_trimEnd, Forall_dropWhile, H.
Qed.

Lemma Forall_collapseRuns :
  forall fuel s, Forall P s -> Forall P (collapseRuns fuel s).
Proof using P_LF.
  induction fuel as [|fuel IH]; intros s H; [exact H|].
  destruct H as [|x s Hx Hs]; [constructor|]. cbn [collapseRuns].
  destruct (startsWith (x :: s) LF3).
  - constructor; [exact P_LF|]. constructor; [exact P_LF|].
    apply IH, Forall_dropWhile, Hs.
  - constructor; [exact Hx|apply IH, Hs].
Qed.

Lemma Forall_splitLines (s : list ascii) :
  Forall P s -> Forall (Forall P) (splitLines s).
Proof using Type.
  induction 1 as [|x s Hx Hs IH]; [repeat constructor|]. cbn [splitLines].
  destruct (Ascii.eqb x LF); [constructor; [constructor|exact IH]|].
  destruct (splitLines s) as [|l ls]; [repeat constructor; assumption|].
  inversion IH; subst. constructor; [constructor; assumption|assumption].
Qed.

Lemma Forall_joinLines (ls : list (list ascii)) :
  Forall (Forall P) ls -> Forall P (joinLines ls).
Proof using P_LF.
  induction 1 as [|l ls Hl Hls IH]; [constructor|].
  destruct ls as [|l' ls']; [exact Hl|].
  rewrite joinLines_cons by discriminate.
  apply Forall_app. split; [exact Hl|]. constructor; [exact P_LF|exact IH].
Qed.

Lemma Forall_trimEndLines (s : list ascii) :
  Forall P s -> Forall P (trimEndLines s).
Proof using P_LF.
  intros H. unfold trimEndLines. apply Forall_joinLines, Forall_map.
  eapply Forall_impl; [apply Forall_splitLines, H|].
  intros l. apply Forall_trimEnd.
Qed.

End CharProperty.

(* ----------------------------------------------------------------- *)
(** ** Words and lines *)

Lemma startsWith_sep (a b k : list ascii) :
  NoLF k -> startsWith (a ++ LF :: b) k = startsWith a k.
Proof.
  intros Hk. revert a. induction Hk as [|y k Hy _ IH]; intros a; [reflexivity|].
  destruct a as [|x a]; cbn [app startsWith].
  - destruct (Ascii.eqb_spec LF y) as [E|_]; [congruence|reflexivity].
  - rewrite IH. reflexivity.
Qed.

(** A word without line feed occurs in [a], a line feed, [b] exactly when
    it occurs in [a] or in [b]. *)
Lemma includes_sep (a b k : list ascii) :
  NoLF k -> k <> [] ->
  includes (a ++ LF :: b) k = includes a k || includes b k.
Proof.
  intros Hk Hne. induction a as [|x a IH].
  - pose proof (startsWith_sep [] b k Hk) as Hs. cbn [app] in Hs |- *.
    cbn [includes]. rewrite Hs.
    destruct k; [congruence|]. reflexivity.
  - pose proof (startsWith_sep (x :: a) b k Hk) as Hs. cbn [app] in Hs |- *.
    cbn [includes]. rewrite IH, Hs, orb_assoc. reflexivity.
Qed.

Lemma includes_lines (k : list ascii) (ls : list (list ascii)) :
  NoLF k -> k <> [] ->
  includes (joinLines ls) k = existsb (fun l => includes l k) ls.
Proof.
  intros Hk Hne. induction ls as [|l ls IH].
  - destruct k; [congruence|reflexivity].
  - destruct ls as [|l' ls'].
    + cbn [joinLines existsb]. rewrite orb_false_r. reflexivity.
    + rewrite joinLines_cons by discriminate.
      rewrite includes_sep by assumption. rewrite IH. reflexivity.
Qed.

Lemma toLowerCase_joinLines (ls : list (list ascii)) :
  toLowerCase (joinLines ls) = joinLines (map toLowerCase ls).
Proof.
  induction ls as [|l ls IH]; [reflexivity|].
  destruct ls as [|l' ls']; [reflexivity|].
  rewrite (joinLines_cons l (l' :: ls')) by discriminate.
  cbn [map].
  rewrite (joinLines_cons (toLowerCase l) (toLowerCase l' :: map toLowerCase ls'))
    by discriminate.
  rewrite toLowerCase_app. f_equal.
  change (toLowerCase (LF :: joinLines (l' :: ls')))
    with (LF :: toLowerCase (joinLines (l' :: ls'))).
  rewrite IH. reflexivity.
Qed.

Lemma includes_lower_lines (k : list ascii) (ls : list (list ascii)) :
  NoLF k -> k <> [] ->
  includes (toLowerCase (joinLines ls)) k = hasWord k ls.
Proof.
  intros Hk Hne. rewrite toLowerCase_joinLines, includes_lines by assumption.
  unfold hasWord. induction ls as [|l ls IH]; [reflexivity|].
  cbn [map existsb]. rewrite IH. reflexivity.
Qed.

Lemma NoLF_check (k : list ascii) :
  forallb (fun x => negb (Ascii.eqb x LF)) k = true -> NoLF k.
Proof.
  intros H. apply Forall_forall. intros x Hx E. subst x.
  rewrite forallb_forall in H. apply list_elem_of_In in Hx.
  specialize (H _ Hx). rewrite Ascii.eqb_refl in H. discriminate.
Qed.

(** The menu-shape test on joined lines asks which words occur in which
    line. *)
Lemma isMenuList_lines (ls : list (list ascii)) :
  isMenuList (toLowerCase (joinLines ls)) = menuShaped ls.
Proof.
  unfold isMenuList, menuShaped.
  rewrite !includes_lower_lines
    by (first [apply NoLF_check; reflexivity | discriminate]).
  reflexivity.
Qed.

Lemma hasWord_incl (k : list ascii) (ls ls' : list (list ascii)) :
  (forall l, In l ls' -> In l ls) ->
  hasWord k ls' = true -> hasWord k ls = true.
Proof.
  unfold hasWord. rewrite !existsb_exists. intros Hin (l & Hl & Hk).
  exists l. split; [apply Hin, Hl|exact Hk].
Qed.

(** Fewer words, no menu shape. *)
Lemma menuShaped_mono (ls ls' : list (list ascii)) :
  (forall k, hasWord k ls' = true -> hasWord k ls = true) ->
  menuShaped ls = false -> menuShaped ls' = false.
Proof.
  intros Hmono. unfold menuShaped.
  repeat match goal with
         | |- context [hasWord ?k ls'] =>
             let E := fresh "E" in
             destruct (hasWord k ls') eqn:E;
             [rewrite (Hmono k E)|clear E]
         end;
    repeat match goal with
           | |- context [hasWord ?k ls] => destruct (hasWord k ls)
           end;
    cbn [andb orb]; intros H; first [exact H | reflexivity].
Qed.

Lemma hasWord_Forall (k : list ascii) (ls : list (list ascii)) :
  hasWord k ls = false
  <-> Forall (fun l => includes (toLowerCase l) k = false) ls.
Proof.
  unfold hasWord. induction ls as [|l ls IH]; cbn [existsb].
  - split; [constructor|reflexivity].
  - rewrite orb_false_iff, IH. split.
    + intros [H1 H2]. constructor; assumption.
    + intros H. inversion H; subst. split; assumption.
Qed.

Lemma includes_tail (x : ascii) (l k : list ascii) :
  includes (x :: l) k = false -> includes l k = false.
Proof. cbn [includes]. intros H. apply orb_false_iff in H as [_ H]. exact H. Qed.

Lemma includes_prefix (a b k : list ascii) :
  includes (a ++ b) k = false -> includes a k = false.
Proof.
  intros H. destruct (includes a k) eqn:E; [|reflexivity].
  rewrite (includes_app_l a b k E) in H. discriminate.
Qed.

(* ----------------------------------------------------------------- *)
(** ** The pipeline on plain text *)

Lemma inertLine_trim (l1 l2 : list ascii) :
  trim l1 = trim l2 -> inertLine l1 = inertLine l2.
Proof.
  intros H. unfold inertLine, isHeaderNavLine, isTocItemLine. rewrite H.
  reflexivity.
Qed.

Lemma inertLine_parts (l : list ascii) :
  inertLine l = true ->
  isHeaderNavLine l = false
  /\ isTocItemLine l = false
  /\ hasNavigationKeyword (trim l) = false
  /\ isMenuSectionHeader (trim l) = false
  /\ isLinkChrome (trim l) = false
  /\ startsWith (trim l) (lit ":") = false.
Proof.
  unfold inertLine. rewrite !andb_true_iff, !negb_true_iff. tauto.
Qed.

Lemma filter_all {A : Type} (f : A -> bool) (l : list A) :
  Forall (fun x => f x = true) l -> List.filter f l = l.
Proof.
  induction 1 as [|x l Hx _ IH]; [reflexivity|]. cbn. rewrite Hx, IH. reflexivity.
Qed.

Lemma removeHeaderNav_plain (s : list ascii) :
  Forall (fun l => inertLine l = true) (splitLines s) -> removeHeaderNav s = s.
Proof.
  intros H. unfold removeHeaderNav. rewrite filter_all.
  - apply joinLines_splitLines.
  - eapply Forall_impl; [exact H|]. intros l Hl.
    apply inertLine_parts in Hl as (-> & _). reflexivity.
Qed.

Lemma removeDuplicateTOC_plain (s : list ascii) :
  Forall (fun l => inertLine l = true) (splitLines s) -> removeDuplicateTOC s = s.
Proof.
  intros H. unfold removeDuplicateTOC.
  rewrite <- (app_nil_r (splitLines s)) at 1.
  rewrite tocLoop_plain.
  - apply joinLines_splitLines.
  - eapply Forall_impl; [exact H|]. intros l Hl.
    apply inertLine_parts in Hl as (_ & Hl & _). exact Hl.
Qed.

(** Where no set of lines has a menu shape, no look-ahead window has. *)
Lemma window_not_menu (lines : list (list ascii)) :
  menuShaped lines = false -> isMenuList (listContentAt lines) = false.
Proof.
  intros H. unfold listContentAt. rewrite isMenuList_lines.
  apply (menuShaped_mono lines); [|exact H].
  intros k. apply hasWord_incl. intros l Hl.
  apply list_elem_of_In. apply list_elem_of_In in Hl.
  eapply sublist_subseteq; [apply sublist_take|exact Hl].
Qed.

Lemma menuShaped_tail (l : list ascii) (rest : list (list ascii)) :
  menuShaped (l :: rest) = false -> menuShaped rest = false.
Proof.
  apply menuShaped_mono. intros k. apply hasWord_incl.
  intros x Hx. right. exact Hx.
Qed.

(** In normal mode the scanner keeps every line of such input. *)
Lemma scan_inert (lines : list (list ascii)) :
  Forall (fun l => inertLine l = true) lines ->
  menuShaped lines = false ->
  forall cleaned, scan lines 0 cleaned = cleaned ++ lines.
Proof.
  induction 1 as [|l lines Hl _ IH]; intros Hmenu cleaned.
  - rewrite app_nil_r. reflexivity.
  - apply inertLine_parts in Hl as (_ & _ & Hkw & Hhdr & Hlink & _).
    assert (Hstart : startsMenuList (trim l) (l :: lines) = false).
    { unfold startsMenuList. rewrite (window_not_menu _ Hmenu).
      destruct lines; rewrite ?andb_false_r; reflexivity. }
    cbn [scan]. rewrite Hkw, Hhdr, Hstart, Hlink.
    cbn [andb Nat.eqb]. rewrite IH by (eapply menuShaped_tail, Hmenu).
    rewrite <- app_assoc. reflexivity.
Qed.

Lemma menuShaped_text (s : list ascii) :
  menuShaped (splitLines s) = isMenuList (toLowerCase s).
Proof. rewrite <- isMenuList_lines, joinLines_splitLines. reflexivity. Qed.

Lemma removeNavigationMenus_plain (s : list ascii) :
  Forall (fun l => inertLine l = true) (splitLines s) ->
  isMenuList (toLowerCase s) = false ->
  removeNavigationMenus s = trim (collapseBlankRuns s).
Proof.
  intros H Hmenu. unfold removeNavigationMenus. cbv zeta.
  rewrite (scan_inert _ H) by (rewrite menuShaped_text; exact Hmenu).
  cbn [app]. rewrite joinLines_splitLines. reflexivity.
Qed.

Lemma startsWith_trim_solid (l : list ascii) (x : ascii) :
  isWhiteSpace x = false ->
  startsWith l [x] = true -> startsWith (trim l) [x] = true.
Proof.
  intros Hx H. destruct l as [|y l]; [discriminate|].
  cbn in H. rewrite andb_true_r in H. apply Ascii.eqb_eq in H. subst y.
  unfold trim, trimStart. cbn [dropWhile]. rewrite Hx.
  rewrite trimEnd_cons_solid by assumption. cbn.
  rewrite Ascii.eqb_refl. reflexivity.
Qed.

Lemma colonAfterLF_lines (s : list ascii) :
  Forall (fun l => startsWith l (lit ":") = false) (tail (splitLines s)) ->
  colonAfterLF s = false.
Proof.
  induction s as [|c1 s1 IH]; [reflexivity|]. intros H.
  assert (Htail : Forall (fun l => startsWith l (lit ":") = false)
                    (tail (splitLines s1))).
  { cbn [splitLines] in H. pose proof (splitLines_nonempty s1) as Hne.
    destruct (Ascii.eqb c1 LF).
    - cbn [tail] in H. destruct (splitLines s1); [constructor|].
      inversion H; subst. assumption.
    - destruct (splitLines s1); [congruence|exact H]. }
  specialize (IH Htail).
  destruct s1 as [|c2 s2]; [reflexivity|].
  change (colonAfterLF (c1 :: c2 :: s2))
    with ((Ascii.eqb c1 LF && Ascii.eqb c2 (ch ":")) || colonAfterLF (c2 :: s2)).
  rewrite IH, orb_false_r.
  destruct (Ascii.eqb_spec c1 LF) as [->|Hc1]; [|reflexivity].
  destruct (Ascii.eqb_spec c2 (ch ":")) as [->|Hc2]; [exfalso|reflexivity].
  assert (Hs : exists l ls,
             splitLines (LF :: ch ":" :: s2) = [] :: (ch ":" :: l) :: ls).
  { pose proof (splitLines_nonempty s2) as Hne.
    cbn [splitLines].
    change (Ascii.eqb LF LF) with true. change (Ascii.eqb (ch ":") LF) with false.
    cbv iota. destruct (splitLines s2) as [|l ls]; [congruence|].
    exists l, ls. reflexivity. }
  destruct Hs as (l & ls & Hs). rewrite Hs in H. cbn [tail] in H.
  inversion H as [|? ? Hhd _]; subst. vm_compute in Hhd. discriminate.
Qed.

Lemma colonAfterLF_inert (s : list ascii) :
  Forall (fun l => inertLine l = true) (splitLines s) -> colonAfterLF s = false.
Proof.
  intros H. apply colonAfterLF_lines.
  assert (Hall : Forall (fun l => startsWith l (lit ":") = false) (splitLines s)).
  { eapply Forall_impl; [exact H|]. intros l Hl.
    apply inertLine_parts in Hl as (_ & _ & _ & _ & _ & Hl).
    destruct (startsWith l (lit ":")) eqn:E; [|reflexivity].
    apply (startsWith_trim_solid l (ch ":")) in E; [|reflexivity].
    change [ch ":"] with (lit ":") in E. congruence. }
  destruct (splitLines s); [constructor|]. inversion Hall; subst. assumption.
Qed.

(** On plain text the pipeline reduces to its white-space rules. *)
Lemma postProcessMarkdown_plain (s : list ascii) (opts : Postprocessor.options) :
  Forall (fun l => inertLine l = true) (splitLines s) ->
  isMenuList (toLowerCase s) = false ->
  noMarkup s ->
  postProcessMarkdown s opts = tidy s.
Proof.
  intros Hlines Hmenu Hmark. unfold postProcessMarkdown. cbv zeta.
  rewrite (removeHeaderNav_plain s Hlines).
  rewrite (removeDuplicateTOC_plain s Hlines).
  rewrite (convertDefinitionLists_plain s Hmark (colonAfterLF_inert s Hlines)).
  assert (Hstrip : (if convertHtmlTags opts then stripRemainingHtml s else s) = s)
    by (destruct (convertHtmlTags opts);
        [apply stripRemainingHtml_noMarkup, Hmark|reflexivity]).
  rewrite Hstrip, (removeNavigationMenus_plain s Hlines Hmenu), cleanWhitespace_eq.
  rewrite (collapseBlankRuns_fixed (trim (collapseBlankRuns s)))
    by apply noTriple_trim, collapseBlankRuns_noTriple.
  reflexivity.
Qed.

Lemma inertLine_front (x : ascii) (l : list ascii) :
  isWhiteSpace x = true -> inertLine (x :: l) = true -> inertLine l = true.
Proof.
  intros Hx H. rewrite <- H. apply inertLine_trim. symmetry.
  apply trim_cons_ws, Hx.
Qed.

Lemma inertLine_back (x : ascii) (l : list ascii) :
  isWhiteSpace x = true -> inertLine (l ++ [x]) = true -> inertLine l = true.
Proof.
  intros Hx H. rewrite <- H. apply inertLine_trim. symmetry.
  apply trim_snoc_ws, Hx.
Qed.

Lemma solidLine_front (x : ascii) (l : list ascii) :
  isWhiteSpace x = true -> solidLine (x :: l) -> solidLine l.
Proof.
  intros Hx [H|H]; [discriminate|]. right. rewrite <- (trim_cons_ws x l Hx). exact H.
Qed.

Lemma solidLine_back (x : ascii) (l : list ascii) :
  isWhiteSpace x = true -> solidLine (l ++ [x]) -> solidLine l.
Proof.
  intros Hx [H|H]; [destruct l; discriminate|]. right.
  rewrite <- (trim_snoc_ws l x Hx). exact H.
Qed.

Lemma solidLine_trimEnd (l : list ascii) : solidLine l -> solidLine (trimEnd l).
Proof.
  intros [->|H]; [left; reflexivity|]. right. rewrite trim_trimEnd. exact H.
Qed.

(** The lines of the tidied text satisfy what the lines of the text
    satisfy, for a property that survives the loss of white space at the
    ends of a line. *)
Lemma lines_tidy (Q : list ascii -> Prop) (s : list ascii) :
  (forall x l, isWhiteSpace x = true -> Q (x :: l) -> Q l) ->
  (forall x l, isWhiteSpace x = true -> Q (l ++ [x]) -> Q l) ->
  (forall l, Q l -> Q (trimEnd l)) ->
  Forall Q (splitLines s) -> Forall Q (splitLines (tidy s)).
Proof.
  intros Hfront Hback Hend H. unfold tidy.
  rewrite splitLines_trimEndLines. apply Forall_map.
  eapply Forall_impl; [|exact Hend].
  apply (lines_trim Q Hfront Hback), lines_collapseBlankRuns, H.
Qed.

(** Tidying adds no word to any line. *)
Lemma hasWord_tidy (k s : list ascii) :
  hasWord k (splitLines (tidy s)) = true -> hasWord k (splitLines s) = true.
Proof.
  intros H. destruct (hasWord k (splitLines s)) eqn:E; [reflexivity|].
  apply hasWord_Forall in E.
  apply (lines_tidy (fun l => includes (toLowerCase l) k = false)) in E.
  - apply hasWord_Forall in E. congruence.
  - intros x l _. cbn [toLowerCase map]. apply includes_tail.
  - intros x l _. rewrite toLowerCase_app. apply includes_prefix.
  - intros l Hl. destruct (trimEnd_split l) as (w & Hw & _).
    rewrite Hw, toLowerCase_app in Hl. eapply includes_prefix, Hl.
Qed.

(** Plain text stays plain under the white-space rules. *)
Lemma plainText_tidy (s : list ascii) : plainText s -> plainText (tidy s).
Proof.
  intros (Hlines & Hmenu & Hmark & Hsolid). unfold plainText.
  split; [|split; [|split]].
  - apply (lines_tidy _ s inertLine_front inertLine_back); [|exact Hlines].
    intros l Hl. rewrite <- Hl. apply inertLine_trim, trim_trimEnd.
  - rewrite <- menuShaped_text in Hmenu |- *.
    apply (menuShaped_mono (splitLines s)); [|exact Hmenu].
    intros k. apply hasWord_tidy.
  - unfold noMarkup, tidy. apply Forall_trimEndLines; [vm_compute; discriminate|].
    apply Forall_trim. rewrite collapseBlankRuns_eq.
    apply Forall_collapseRuns; [vm_compute; discriminate|exact Hmark].
  - apply (lines_tidy _ s solidLine_front solidLine_back solidLine_trimEnd Hsolid).
Qed.

(** The white-space rules do nothing the second time. *)
Lemma tidy_idem (s : list ascii) :
  Forall solidLine (splitLines s) -> tidy (tidy s) = tidy s.
Proof.
  intros Hsolid.
  assert (Hy : Forall solidLine (splitLines (trim (collapseBlankRuns s))))
    by apply (lines_trim _ solidLine_front solidLine_back),
             lines_collapseBlankRuns, Hsolid.
  assert (Hn : noTriple (tidy s) = true).
  { unfold tidy. rewrite (noTriple_trimEndLines _ Hy).
    apply noTriple_trim, collapseBlankRuns_noTriple. }
  unfold tidy at 1.
  rewrite (collapseBlankRuns_fixed _ Hn).
  rewrite trim_fixed.
  - unfold tidy. apply trimEndLines_idem.
  - unfold tidy. apply headSolid_trimEndLines, headSolid_trim.
  - unfold tidy. apply lastSolid_trimEndLines, lastSolid_trim.
Qed.

Lemma plainText_of_chromeFree (markdown : list ascii) :
  chromeFree markdown ->
  noMarkup markdown ->
  Forall (fun l => isTocItemLine l = false
                   /\ startsWith (trim l) (lit ":") = false)
    (splitLines markdown) ->
  Forall solidLine (splitLines markdown) ->
  plainText markdown.
Proof.
  intros (Hchrome & Hmenu) Hmark Hmore Hsolid.
  split; [|split; [exact Hmenu|split; assumption]].
  induction Hchrome as [|l ls (Hkw & Hhdr & Hlink & Hnav) _ IH]; [constructor|].
  inversion Hmore as [|? ? (Htoc & Hcolon) Hmore']; subst.
  inversion Hsolid as [|? ? _ Hsolid']; subst.
  constructor; [|apply IH; assumption].
  unfold inertLine. rewrite Hnav, Htoc, Hkw, Hhdr, Hlink, Hcolon. reflexivity.
Qed.

(** C8, amended.  On text that is free of chrome (no line with a chrome
    phrase, a section header, a navigation link or a header logo, and no
    menu shape in the text as a whole) and that moreover has no residual
    markup (no [<]), no TOC-item line, no line with a leading colon and no
    line made of white space only, the pipeline is idempotent, under every
    option combination: it collapses blank runs, trims the text and strips
    trailing white space, and a second run finds nothing left to do. *)
Theorem C8_idempotent_on_plain_text
    (markdown : list ascii) (opts : Postprocessor.options) :
  chromeFree markdown ->
  noMarkup markdown ->
  Forall (fun l => isTocItemLine l = false
                   /\ startsWith (trim l) (lit ":") = false)
    (splitLines markdown) ->
  Forall solidLine (splitLines markdown) ->
  postProcessMarkdown (postProcessMarkdown markdown opts) opts
  = postProcessMarkdown markdown opts
  /\ postProcessMarkdown markdown opts = tidy markdown.
Proof.
  intros Hchrome Hmark Hmore Hsolid.
  pose proof (plainText_of_chromeFree markdown Hchrome Hmark Hmore Hsolid)
    as Hplain.
  pose proof (plainText_tidy markdown Hplain) as (Hlines' & Hmenu' & Hmark' & _).
  destruct Hplain as (Hlines & Hmenu & _ & _).
  rewrite (postProcessMarkdown_plain markdown opts Hlines Hmenu Hmark).
  rewrite (postProcessMarkdown_plain (tidy markdown) opts Hlines' Hmenu' Hmark').
  split; [apply tidy_idem, Hsolid|reflexivity].
Qed.

Lemma noMarkup_check (s : list ascii) :
  forallb (fun x => negb (Ascii.eqb x (ch "<"))) s = true -> noMarkup s.
Proof.
  intros H. apply Forall_forall. intros x Hx E. subst x.
  rewrite forallb_forall in H. apply list_elem_of_In in Hx.
  specialize (H _ Hx). vm_compute in H. discriminate.
Qed.

Lemma C8_idempotent_on_plain_text_witness :
  let markdown :=
    joinLines [lit "# Title  "; []; []; []; lit "- first item ";
               lit "- second item"; []; lit "Some text.  ";
               lit "    code();"; []; lit "Last line."; []] in
  postProcessMarkdown
    (postProcessMarkdown markdown Postprocessor.defaultOptions)
    Postprocessor.defaultOptions
  = postProcessMarkdown markdown Postprocessor.defaultOptions.
Proof.
  intros markdown.
  assert (Hs : splitLines markdown
               = [lit "# Title  "; []; []; []; lit "- first item ";
                  lit "- second item"; []; lit "Some text.  ";
                  lit "    code();"; []; lit "Last line."; []])
    by (vm_compute; reflexivity).
  refine (proj1 (C8_idempotent_on_plain_text markdown
                   Postprocessor.defaultOptions _ _ _ _)).
  - unfold chromeFree. rewrite Hs. split; [|vm_compute; reflexivity].
    repeat (constructor; [repeat split; vm_compute; reflexivity|]).
    constructor.
  - apply noMarkup_check. vm_compute. reflexivity.
  - rewrite Hs.
    repeat (constructor; [split; vm_compute; reflexivity|]). constructor.
  - rewrite Hs.
    repeat (constructor;
            [first [left; reflexivity | right; vm_compute; discriminate]|]).
    constructor.
Defined.

(** C8, counterexample: a list item that carries a stray tag is no TOC item
    on the first run; the tag is stripped after the TOC pass has run, and on
    the second run the now TOC-shaped one-item block is deleted. *)
Lemma C8_counterexample :
  let markdown := joinLines (map lit ["Intro."; "- <x>[a](#a)"; "Body."]%string) in
  chromeFree markdown
  /\ postProcessMarkdown markdown Postprocessor.defaultOptions
     = joinLines (map lit ["Intro."; "- [a](#a)"; "Body."]%string)
  /\ postProcessMarkdown
       (postProcessMarkdown markdown Postprocessor.defaultOptions)
       Postprocessor.defaultOptions
     = joinLines (map lit ["Intro."; "Body."]%string)
  /\ ~ C8_as_stated.
Proof.
  cbv zeta.
  assert (Hfree : chromeFree
                    (joinLines (map lit ["Intro."; "- <x>[a](#a)"; "Body."]%string))).
  { unfold chromeFree. split; [|vm_compute; reflexivity].
    assert (Hs : splitLines
                   (joinLines (map lit ["Intro."; "- <x>[a](#a)"; "Body."]%string))
                 = map lit ["Intro."; "- <x>[a](#a)"; "Body."]%string)
      by (vm_compute; reflexivity).
    rewrite Hs. cbn [map].
    repeat (constructor; [repeat split; vm_compute; reflexivity|]).
    constructor. }
  split; [exact Hfree|]. split; [vm_compute; reflexivity|].
  split; [vm_compute; reflexivity|].
  intros H. specialize (H _ Hfree). vm_compute in H. discriminate.
Qed.

(* ----------------------------------------------------------------- *)
(** ** Blank lines in the output *)

(** When no line handed to [cleanWhitespace] consists of white space only,
    its output has no three line feeds in a row, that is, no two
    consecutive blank lines. *)
Lemma cleanWhitespace_noTriple (s : list ascii) :
  Forall solidLine (splitLines s) -> noTriple (cleanWhitespace s) = true.
Proof.
  intros H. rewrite cleanWhitespace_eq.
  rewrite noTriple_trimEndLines by apply lines_collapseBlankRuns, H.
  apply collapseBlankRuns_noTriple.
Qed.

(** C9, the defect.  Lines made of white space only are not seen by the
    collapse of blank runs, which looks for adjacent line feeds, and are
    emptied afterwards by the stripping of trailing white space: the output
    for "a", " ", " ", "b" has two consecutive blank lines, under either
    setting of [convertHtmlTags].  Runs of truly empty lines are collapsed:
    five, and also two, consecutive empty lines leave one. *)
Theorem C9_padded_blank_lines_survive :
  postProcessMarkdown (joinLines [lit "a"; lit " "; lit " "; lit "b"])
    Postprocessor.defaultOptions
  = joinLines [lit "a"; []; []; lit "b"]
  /\ postProcessMarkdown (joinLines [lit "a"; lit " "; lit " "; lit "b"])
       (Postprocessor.MkOptions false false)
     = joinLines [lit "a"; []; []; lit "b"]
  /\ noTriple (postProcessMarkdown
                 (joinLines [lit "a"; lit " "; lit " "; lit "b"])
                 Postprocessor.defaultOptions) = false
  /\ postProcessMarkdown (joinLines [lit "a"; []; []; []; []; []; lit "b"])
       Postprocessor.defaultOptions
     = joinLines [lit "a"; []; lit "b"]
  /\ postProcessMarkdown (joinLines [lit "a"; []; []; lit "b"])
       Postprocessor.defaultOptions
     = joinLines [lit "a"; []; lit "b"].
Proof.
  repeat split; vm_compute; reflexivity.
Qed.
